(** * The asset-transfer chaincode ([chaincode/smartcontract.go])

    A shallow embedding of the Go smart contract and of the two libraries it
    talks to: [encoding/json], as far as it acts on the [Asset] struct, and
    the chaincode stub through which the contract reads and writes the world
    state.  The properties of the record-lifecycle operations follow the
    definitions. *)

From Stdlib Require Import ZArith String Ascii List.
From stdpp Require Import gmap strings list fin_maps pretty.

Local Open Scope Z_scope.

(** ** Go values *)

(** A [[]byte] and a Go [string] are both sequences of bytes: [string] stands
    for either. *)

(** The [error] values the contract can return.  [fmt.Errorf] builds a message
    around a key or around the error it wraps; each way of building one is a
    constructor. *)
Inductive error : Type :=
| StubError (msg : string)
    (** an error handed back by the chaincode stub *)
| SyntaxError
    (** [*json.SyntaxError]: the bytes are not a JSON document *)
| UnmarshalTypeError (value : string)
    (** [*json.UnmarshalTypeError]: a JSON [value] that does not fit a struct *)
| FailedToRead (cause : error)
    (** ["failed to read from world state: %v"] *)
| FailedToPut (cause : error)
    (** ["failed to put to world state. %v"] *)
| AlreadyExists (allowlist : string)
    (** ["the asset %s already exists"] *)
| DoesNotExist (allowlist : string).
    (** ["the asset %s does not exist"] *)

(** A Go result pair [(v, err)]: either the value with a [nil] error, or the
    error.  A function that returns only an [error] yields [option error],
    where [None] is [nil]. *)
Inductive result (A : Type) : Type :=
| Ok (v : A)
| Err (err : error).
Arguments Ok {A} v.
Arguments Err {A} err.

(** ** [encoding/json]: the scanner

    [json.Unmarshal] first runs [checkValid] over the whole input.  The
    scanner is a state machine fed one byte at a time, with a stack of the
    objects and arrays that are open. *)
Module scanner.

Inductive parse := parseObjectKey | parseObjectValue | parseArrayValue.

(** The step function the scanner will run on the next byte. *)
Inductive state :=
| BeginValueOrEmpty | BeginValue | BeginStringOrEmpty | BeginString
| EndValue | EndTop
| InString | InStringEsc | InStringEscU | InStringEscU1 | InStringEscU12
| InStringEscU123
| Neg | Digit1 | Digit0 | Dot | Dot0 | Exp | ExpSign | Exp0
| LitT | LitTr | LitTru | LitF | LitFa | LitFal | LitFals
| LitN | LitNu | LitNul.

(** [parseState] has the innermost open object or array at its head.  A
    step that reports [scanError] is [None]; the scanner never leaves the
    error state, so nothing more is kept of it. *)
Record t := Scanner { step : state; parseState : list parse; endTop : bool }.

Definition maxNestingDepth : N := 10000.

Definition reset : t :=
  {| step := BeginValue; parseState := []; endTop := false |}.

Definition goto (st : state) (s : t) : option t :=
  Some {| step := st; parseState := parseState s; endTop := endTop s |}.

Definition isSpace (c : ascii) : bool :=
  match c with
  | " " | "009" | "013" | "010" => true
  | _ => false
  end%char.

Definition isDigit (c : ascii) : bool := (("0" <=? c) && (c <=? "9"))%char.

Definition isHex (c : ascii) : bool :=
  (isDigit c || (("a" <=? c) && (c <=? "f")) || (("A" <=? c) && (c <=? "F")))%char.

Definition pushParseState (s : t) (newParseState : parse) (next : state)
  : option t :=
  let stack := newParseState :: parseState s in
  if (N.of_nat (length stack) <=? maxNestingDepth)%N
  then Some {| step := next; parseState := stack; endTop := endTop s |}
  else None.

Definition popParseState (s : t) : option t :=
  match parseState s with
  | [] => None
  | _ :: [] => Some {| step := EndTop; parseState := []; endTop := true |}
  | _ :: rest => Some {| step := EndValue; parseState := rest; endTop := endTop s |}
  end.

Definition stateEndTop (s : t) (c : ascii) : option t :=
  if isSpace c then Some s else None.

Definition stateEndValue (s : t) (c : ascii) : option t :=
  match parseState s with
  | [] =>
      stateEndTop {| step := EndTop; parseState := []; endTop := true |} c
  | ps :: rest =>
      if isSpace c then goto EndValue s
      else
        let retag p st :=
          Some {| step := st; parseState := p :: rest; endTop := endTop s |} in
        match ps with
        | parseObjectKey =>
            if (c =? ":")%char then retag parseObjectValue BeginValue else None
        | parseObjectValue =>
            if (c =? ",")%char then retag parseObjectKey BeginString
            else if (c =? "}")%char then popParseState s
            else None
        | parseArrayValue =>
            if (c =? ",")%char then goto BeginValue s
            else if (c =? "]")%char then popParseState s
            else None
        end
  end.

Definition stateBeginValue (s : t) (c : ascii) : option t :=
  if isSpace c then Some s
  else
    match c with
    | "{" => pushParseState s parseObjectKey BeginStringOrEmpty
    | "[" => pushParseState s parseArrayValue BeginValueOrEmpty
    | "034" => goto InString s
    | "-" => goto Neg s
    | "0" => goto Digit0 s
    | "t" => goto LitT s
    | "f" => goto LitF s
    | "n" => goto LitN s
    | _ => if (("1" <=? c) && (c <=? "9"))%char then goto Digit1 s else None
    end%char.

Definition stateBeginValueOrEmpty (s : t) (c : ascii) : option t :=
  if isSpace c then Some s
  else if (c =? "]")%char then stateEndValue s c
  else stateBeginValue s c.

Definition stateBeginString (s : t) (c : ascii) : option t :=
  if isSpace c then Some s
  else if (c =? "034")%char then goto InString s
  else None.

Definition stateBeginStringOrEmpty (s : t) (c : ascii) : option t :=
  if isSpace c then Some s
  else if (c =? "}")%char then
    match parseState s with
    | [] => None
    | _ :: rest =>
        stateEndValue {| step := step s; parseState := parseObjectValue :: rest;
                         endTop := endTop s |} c
    end
  else stateBeginString s c.

Definition stateInString (s : t) (c : ascii) : option t :=
  if (c =? "034")%char then goto EndValue s
  else if (c =? "\")%char then goto InStringEsc s
  else if (c <? " ")%char then None
  else Some s.

Definition stateInStringEsc (s : t) (c : ascii) : option t :=
  match c with
  | "b" | "f" | "n" | "r" | "t" | "\" | "/" | "034" => goto InString s
  | "u" => goto InStringEscU s
  | _ => None
  end%char.

(** The four hexadecimal digits of a [\u] escape. *)
Definition stateHex (next : state) (s : t) (c : ascii) : option t :=
  if isHex c then goto next s else None.

Definition state0 (s : t) (c : ascii) : option t :=
  if (c =? ".")%char then goto Dot s
  else if ((c =? "e") || (c =? "E"))%char then goto Exp s
  else stateEndValue s c.

Definition state1 (s : t) (c : ascii) : option t :=
  if isDigit c then goto Digit1 s else state0 s c.

Definition stateNeg (s : t) (c : ascii) : option t :=
  if (c =? "0")%char then goto Digit0 s
  else if (("1" <=? c) && (c <=? "9"))%char then goto Digit1 s
  else None.

Definition stateDot (s : t) (c : ascii) : option t :=
  if isDigit c then goto Dot0 s else None.

Definition stateDot0 (s : t) (c : ascii) : option t :=
  if isDigit c then Some s
  else if ((c =? "e") || (c =? "E"))%char then goto Exp s
  else stateEndValue s c.

Definition stateESign (s : t) (c : ascii) : option t :=
  if isDigit c then goto Exp0 s else None.

Definition stateE (s : t) (c : ascii) : option t :=
  if ((c =? "+") || (c =? "-"))%char then goto ExpSign s else stateESign s c.

Definition stateE0 (s : t) (c : ascii) : option t :=
  if isDigit c then Some s else stateEndValue s c.

(** One letter of [true], [false] or [null]. *)
Definition stateLit (want : ascii) (next : state) (s : t) (c : ascii)
  : option t :=
  if (c =? want)%char then goto next s else None.

(** [s.step(s, c)]. *)
Definition run (s : t) (c : ascii) : option t :=
  match step s with
  | BeginValueOrEmpty => stateBeginValueOrEmpty s c
  | BeginValue => stateBeginValue s c
  | BeginStringOrEmpty => stateBeginStringOrEmpty s c
  | BeginString => stateBeginString s c
  | EndValue => stateEndValue s c
  | EndTop => stateEndTop s c
  | InString => stateInString s c
  | InStringEsc => stateInStringEsc s c
  | InStringEscU => stateHex InStringEscU1 s c
  | InStringEscU1 => stateHex InStringEscU12 s c
  | InStringEscU12 => stateHex InStringEscU123 s c
  | InStringEscU123 => stateHex InString s c
  | Neg => stateNeg s c
  | Digit1 => state1 s c
  | Digit0 => state0 s c
  | Dot => stateDot s c
  | Dot0 => stateDot0 s c
  | Exp => stateE s c
  | ExpSign => stateESign s c
  | Exp0 => stateE0 s c
  | LitT => stateLit "r" LitTr s c
  | LitTr => stateLit "u" LitTru s c
  | LitTru => stateLit "e" EndValue s c
  | LitF => stateLit "a" LitFa s c
  | LitFa => stateLit "l" LitFal s c
  | LitFal => stateLit "s" LitFals s c
  | LitFals => stateLit "e" EndValue s c
  | LitN => stateLit "u" LitNu s c
  | LitNu => stateLit "l" LitNul s c
  | LitNul => stateLit "l" EndValue s c
  end.

(** At the end of the input a pending number is closed by feeding a space;
    anything else left open is ["unexpected end of JSON input"]. *)
Definition eof (s : t) : bool :=
  if endTop s then true
  else match run s " "%char with
       | Some s' => endTop s'
       | None => false
       end.

Fixpoint scan (data : string) (s : t) : bool :=
  match data with
  | EmptyString => eof s
  | String c rest =>
      match run s c with
      | Some s' => scan rest s'
      | None => false
      end
  end.

(** [checkValid(data, scan) == nil]. *)
Definition checkValid (data : string) : bool := scan data reset.

End scanner.

(** ** The [Asset] struct

    Fields in the order of the declaration. Go's [int] is a 64-bit signed
    integer; the contract does no arithmetic on it. *)
Record Asset := {
  webfilterlist : Z;
  blocklist : string;
  allowlist : string;
  attribute1 : string;
  attribute2 : Z;
}.

(** The zero value of the struct, which [var asset Asset] declares. *)
Definition zeroAsset : Asset :=
  {| webfilterlist := 0; blocklist := ""; allowlist := ""; attribute1 := "";
     attribute2 := 0 |}.

(** ** [encoding/json] on an [Asset]

    The package reaches a struct through reflection.  It reads and sets only
    the exported fields, those whose Go name starts with an upper-case letter;
    a [json:] tag on any other field is never consulted. *)
Inductive fieldValue :=
| IntField (get : Asset -> Z)
| StringField (get : Asset -> string).

Record structField := {
  goName : string;
  jsonName : string;
  fieldOf : fieldValue;
}.

(** The declaration of [Asset], line by line: name, tag and type. *)
Definition Asset_fields : list structField :=
  [ {| goName := "webfilterlist"; jsonName := "webfilterlist";
       fieldOf := IntField webfilterlist |};
    {| goName := "blocklist"; jsonName := "blocklist";
       fieldOf := StringField blocklist |};
    {| goName := "allowlist"; jsonName := "allowlist";
       fieldOf := StringField allowlist |};
    {| goName := "attribute1"; jsonName := "attribute1";
       fieldOf := StringField attribute1 |};
    {| goName := "attribute2"; jsonName := "attribute2";
       fieldOf := IntField attribute2 |} ].

Definition IsExported (name : string) : bool :=
  match name with
  | String c _ => (("A" <=? c) && (c <=? "Z"))%char
  | EmptyString => false
  end.

(** The fields [encoding/json] sees, in the order it writes them. *)
Definition exportedFields : list structField :=
  List.filter (fun f => IsExported (goName f)) Asset_fields.

Definition hexDigit (n : N) : ascii :=
  match String.get (N.to_nat n) "0123456789abcdef" with
  | Some c => c
  | None => "0"%char
  end.

(** One byte below 128 of a string value as the encoder writes it (Go 1.22
    and later, with HTML escaping, which [json.Marshal] turns on): the quote
    and the backslash behind a backslash; backspace, form feed, line feed,
    carriage return and tab as [\b], [\f], [\n], [\r], [\t]; any other
    control byte and [<], [>], [&] as [\u00XX]; every other byte as it
    is. *)
Definition appendByte (c : ascii) : string :=
  if ((c =? "\") || (c =? "034"))%char then String "\" (String c EmptyString)
  else if (c =? "008")%char then "\b"
  else if (c =? "012")%char then "\f"
  else if (c =? "010")%char then "\n"
  else if (c =? "013")%char then "\r"
  else if (c =? "009")%char then "\t"
  else if ((c <? " ") || (c =? "<") || (c =? ">") || (c =? "&"))%char
  then "\u00" +:+ String (hexDigit (N_of_ascii c / 16))
                   (String (hexDigit (N_of_ascii c mod 16)) EmptyString)
  else String c EmptyString.

Definition between (lo hi c : ascii) : bool := ((lo <=? c) && (c <=? hi))%char.

(** [utf8.DecodeRuneInString] at the head of [s]: the width of the rune
    when the bytes are a valid UTF-8 encoding, [None] when they are not (the
    decoder then reports [RuneError] with width 1).  The first byte fixes
    the width and the range of the second byte; the bytes after it lie in
    128..191. *)
Definition runeLen (s : string) : option nat :=
  match s with
  | EmptyString => None
  | String c0 rest =>
      let cont := between "128" "191" in
      if (c0 <? "128")%char then Some 1%nat
      else if between "194" "223" c0 then
        match rest with
        | String c1 _ => if cont c1 then Some 2%nat else None
        | _ => None
        end
      else if between "224" "239" c0 then
        match rest with
        | String c1 (String c2 _) =>
            let lo := if (c0 =? "224")%char then "160"%char else "128"%char in
            let hi := if (c0 =? "237")%char then "159"%char else "191"%char in
            if between lo hi c1 && cont c2 then Some 3%nat else None
        | _ => None
        end
      else if between "240" "244" c0 then
        match rest with
        | String c1 (String c2 (String c3 _)) =>
            let lo := if (c0 =? "240")%char then "144"%char else "128"%char in
            let hi := if (c0 =? "244")%char then "143"%char else "191"%char in
            if between lo hi c1 && cont c2 && cont c3 then Some 4%nat else None
        | _ => None
        end
      else None
  end.

(** The rune at the head of [s] is U+2028 or U+2029 (bytes 226 128 168 and
    226 128 169); the result is its last hexadecimal digit. *)
Definition lineSeparator (s : string) : option ascii :=
  match s with
  | String c0 (String c1 (String c2 _)) =>
      if ((c0 =? "226") && (c1 =? "128"))%char then
        if (c2 =? "168")%char then Some "8"%char
        else if (c2 =? "169")%char then Some "9"%char
        else None
      else None
  | _ => None
  end.

(** The bytes of a string value between the quotes.  A byte below 128 goes
    through [appendByte]; a byte that starts no valid UTF-8 encoding becomes
    [\ufffd]; U+2028 and U+2029 become [\u2028] and [\u2029]; any other
    rune is copied.  [pending] counts the bytes still to pass of the rune
    the walk is in, [copy] says whether they are copied or were replaced. *)
Fixpoint appendRunes (pending : nat) (copy : bool) (s : string) : string :=
  match s with
  | EmptyString => EmptyString
  | String c rest =>
      match pending with
      | S n =>
          (if copy then String c EmptyString else EmptyString)
          +:+ appendRunes n copy rest
      | O =>
          if (c <? "128")%char then appendByte c +:+ appendRunes 0 true rest
          else
            match runeLen s with
            | None => "\ufffd" +:+ appendRunes 0 true rest
            | Some size =>
                match lineSeparator s with
                | Some digit =>
                    "\u202" +:+ String digit EmptyString
                    +:+ appendRunes (size - 1) false rest
                | None =>
                    String c EmptyString +:+ appendRunes (size - 1) true rest
                end
            end
      end
  end.

Definition appendString (s : string) : string := appendRunes 0 true s.

(** A string between double quotes (byte 34). *)
Definition quoted (s : string) : string :=
  String "034" (s +:+ String "034" EmptyString).

(** One member, [ "name":value ]. *)
Definition encodeField (a : Asset) (f : structField) : string :=
  quoted (jsonName f) +:+ ":" +:+
  match fieldOf f with
  | IntField get => pretty (get a)
  | StringField get => quoted (appendString (get a))
  end.

(** An object with one member for each of [fields], in their order. *)
Definition encodeStruct (fields : list structField) (a : Asset) : string :=
  "{" +:+ String.concat "," (map (encodeField a) fields) +:+ "}".

(** [json.Marshal(asset)]: the object of the exported fields.  No field type
    of [Asset] can make the encoder fail. *)
Definition json_Marshal (a : Asset) : result string :=
  Ok (encodeStruct exportedFields a).

(** The first byte of the JSON value, after the leading white space. *)
Fixpoint firstByte (data : string) : option ascii :=
  match data with
  | EmptyString => None
  | String c rest => if scanner.isSpace c then firstByte rest else Some c
  end.

(** [json.Unmarshal(data, &asset)], giving the struct as it is afterwards.
    The input is checked as a whole first.  Of a valid document, an object
    is read member by member: a member is stored into the exported field it
    names and skipped when it names none.  [Asset] has no exported field
    ([exportedFields] is empty), so every member is skipped and the struct
    is left as it was.  [null] changes nothing, and any other JSON value
    cannot be stored into a struct. *)
Definition json_Unmarshal (data : string) (v : Asset) : result Asset :=
  if scanner.checkValid data then
    match firstByte data with
    | Some "{"%char => Ok v
    | Some "n"%char => Ok v
    | Some "["%char => Err (UnmarshalTypeError "array")
    | Some "034"%char => Err (UnmarshalTypeError "string")
    | Some "t"%char | Some "f"%char => Err (UnmarshalTypeError "bool")
    | _ => Err (UnmarshalTypeError "number")
    end
  else Err SyntaxError.

(** ** The chaincode stub

    [ctx.GetStub()] is the contract's only access to the world state, a
    key-value store owned by the host.  The store is a finite map from keys
    to values.  Any call may fail for a reason of the host's: the stub says,
    for each call, which error (if any) it answers with.  It also keeps the
    list of the writes the contract has asked for, the latest first. *)
Inductive write :=
| PutCall (key value : string)
| DelCall (key : string).

Record Stub := {
  world : gmap string string;
  issued : list write;
  getFault : string -> option string;
  putFault : string -> string -> option string;
  delFault : string -> option string;
  rangeFault : option string;
  nextFault : string -> option string;
}.

(** The stub after one more call, with the world state the call leaves. *)
Definition after (w : write) (m : gmap string string) (s : Stub) : Stub :=
  {| world := m; issued := w :: issued s;
     getFault := getFault s; putFault := putFault s; delFault := delFault s;
     rangeFault := rangeFault s; nextFault := nextFault s |}.

(** [GetState(key)]: the value, [nil] ([None]) when the key is absent. *)
Definition GetState (s : Stub) (key : string) : result (option string) :=
  match getFault s key with
  | Some msg => Err (StubError msg)
  | None => Ok (world s !! key)
  end.

Definition PutState (s : Stub) (key value : string) : option error * Stub :=
  match putFault s key value with
  | Some msg => (Some (StubError msg), after (PutCall key value) (world s) s)
  | None => (None, after (PutCall key value) (<[key := value]> (world s)) s)
  end.

Definition DelState (s : Stub) (key : string) : option error * Stub :=
  match delFault s key with
  | Some msg => (Some (StubError msg), after (DelCall key) (world s) s)
  | None => (None, after (DelCall key) (delete key (world s)) s)
  end.

(** A key is in the range when it is not below [startKey] and is below
    [endKey]; an empty bound is no bound. *)
Definition inRange (startKey endKey key : string) : bool :=
  ((startKey =? "") || (startKey <=? key))%string &&
  ((endKey =? "") || (key <? endKey))%string.

(** [GetStateByRange(startKey, endKey)]: the entries the iterator will
    yield, in the order of the store. *)
Definition GetStateByRange (s : Stub) (startKey endKey : string)
  : result (list (string * string)) :=
  match rangeFault s with
  | Some msg => Err (StubError msg)
  | None =>
      Ok (List.filter (fun kv => inRange startKey endKey (fst kv))
            (map_to_list (world s)))
  end.

(** ** The contract *)

(** The six assets of [InitLedger]. *)
Definition assets : list Asset :=
  [ {| allowlist := "www.google.com"; blocklist := ""; attribute2 := 5;
       attribute1 := ""; webfilterlist := 300 |};
    {| allowlist := ""; blocklist := "www.xxx.com"; attribute2 := 5;
       attribute1 := ""; webfilterlist := 400 |};
    {| allowlist := "www.bbc.co.uk"; blocklist := ""; attribute2 := 10;
       attribute1 := ""; webfilterlist := 500 |};
    {| allowlist := "https://scholar.google.com/"; blocklist := "";
       attribute2 := 10; attribute1 := ""; webfilterlist := 600 |};
    {| allowlist := ""; blocklist := "www.instagram.com"; attribute2 := 15;
       attribute1 := ""; webfilterlist := 700 |};
    {| allowlist := "www.napier.ac.uk"; blocklist := ""; attribute2 := 15;
       attribute1 := ""; webfilterlist := 800 |} ].

(** The body of [for _, asset := range assets]. *)
Fixpoint InitLedger_range (todo : list Asset) (ctx : Stub)
  : option error * Stub :=
  match todo with
  | [] => (None, ctx)
  | asset :: rest =>
      match json_Marshal asset with
      | Err err => (Some err, ctx)
      | Ok assetJSON =>
          match PutState ctx (allowlist asset) assetJSON with
          | (Some err, ctx') => (Some (FailedToPut err), ctx')
          | (None, ctx') => InitLedger_range rest ctx'
          end
      end
  end.

(** [InitLedger] adds a base set of assets to the ledger. *)
Definition InitLedger (ctx : Stub) : option error * Stub :=
  InitLedger_range assets ctx.

(** [AssetExists] returns true when an asset with the given allowlist exists
    in the world state. *)
Definition AssetExists (ctx : Stub) (allowlist : string) : result bool :=
  match GetState ctx allowlist with
  | Err err => Err (FailedToRead err)
  | Ok assetJSON =>
      Ok (match assetJSON with Some _ => true | None => false end)
  end.

(** [CreateAsset] issues a new asset to the world state. *)
Definition CreateAsset (ctx : Stub) (allowlist blocklist : string)
    (attribute2 : Z) (attribute1 : string) (webfilterlist : Z)
  : option error * Stub :=
  match AssetExists ctx allowlist with
  | Err err => (Some err, ctx)
  | Ok true => (Some (AlreadyExists allowlist), ctx)
  | Ok false =>
      let asset :=
        {| allowlist := allowlist; blocklist := blocklist;
           attribute2 := attribute2; attribute1 := attribute1;
           webfilterlist := webfilterlist |} in
      match json_Marshal asset with
      | Err err => (Some err, ctx)
      | Ok assetJSON => PutState ctx allowlist assetJSON
      end
  end.

(** [ReadAsset] returns the asset stored in the world state under the given
    allowlist. *)
Definition ReadAsset (ctx : Stub) (allowlist : string) : result Asset :=
  match GetState ctx allowlist with
  | Err err => Err (FailedToRead err)
  | Ok None => Err (DoesNotExist allowlist)
  | Ok (Some assetJSON) => json_Unmarshal assetJSON zeroAsset
  end.

(** [UpdateAsset] overwrites an existing asset with a new one. *)
Definition UpdateAsset (ctx : Stub) (allowlist blocklist : string)
    (attribute2 : Z) (attribute1 : string) (webfilterlist : Z)
  : option error * Stub :=
  match AssetExists ctx allowlist with
  | Err err => (Some err, ctx)
  | Ok false => (Some (DoesNotExist allowlist), ctx)
  | Ok true =>
      let asset :=
        {| allowlist := allowlist; blocklist := blocklist;
           attribute2 := attribute2; attribute1 := attribute1;
           webfilterlist := webfilterlist |} in
      match json_Marshal asset with
      | Err err => (Some err, ctx)
      | Ok assetJSON => PutState ctx allowlist assetJSON
      end
  end.

(** [DeleteAsset] deletes a given asset from the world state. *)
Definition DeleteAsset (ctx : Stub) (allowlist : string)
  : option error * Stub :=
  match AssetExists ctx allowlist with
  | Err err => (Some err, ctx)
  | Ok false => (Some (DoesNotExist allowlist), ctx)
  | Ok true => DelState ctx allowlist
  end.

(** [asset.attribute1 = newattribute1]. *)
Definition set_attribute1 (asset : Asset) (newattribute1 : string) : Asset :=
  {| webfilterlist := webfilterlist asset; blocklist := blocklist asset;
     allowlist := allowlist asset; attribute1 := newattribute1;
     attribute2 := attribute2 asset |}.

(** [TransferAsset] updates the attribute1 field of the asset with the given
    allowlist in the world state, and returns the old attribute1. *)
Definition TransferAsset (ctx : Stub) (allowlist newattribute1 : string)
  : result string * Stub :=
  match ReadAsset ctx allowlist with
  | Err err => (Err err, ctx)
  | Ok asset =>
      let oldattribute1 := attribute1 asset in
      let asset := set_attribute1 asset newattribute1 in
      match json_Marshal asset with
      | Err err => (Err err, ctx)
      | Ok assetJSON =>
          match PutState ctx allowlist assetJSON with
          | (Some err, ctx') => (Err err, ctx')
          | (None, ctx') => (Ok oldattribute1, ctx')
          end
      end
  end.

(** The body of [for resultsIterator.HasNext()]: [Next] hands out the entries
    one by one and may fail on any of them. *)
Fixpoint GetAllAssets_loop (ctx : Stub) (resultsIterator : list (string * string))
    (found : list Asset) : result (list Asset) :=
  match resultsIterator with
  | [] => Ok found
  | queryResponse :: rest =>
      match nextFault ctx (fst queryResponse) with
      | Some msg => Err (StubError msg)
      | None =>
          match json_Unmarshal (snd queryResponse) zeroAsset with
          | Err err => Err err
          | Ok asset => GetAllAssets_loop ctx rest (found ++ [asset])
          end
      end
  end.

(** [GetAllAssets] returns all assets found in the world state. *)
Definition GetAllAssets (ctx : Stub) : result (list Asset) :=
  match GetStateByRange ctx "" "" with
  | Err err => Err err
  | Ok resultsIterator => GetAllAssets_loop ctx resultsIterator []
  end.

(** ** Runs of the contract *)

(** A stub over an empty world state that never fails. *)
Definition emptyStub : Stub :=
  {| world := ∅; issued := [];
     getFault := fun _ => None; putFault := fun _ _ => None;
     delFault := fun _ => None; rangeFault := None;
     nextFault := fun _ => None |}.

(** The transactions that write. *)
Inductive invocation :=
| InitLedgerTx
| CreateAssetTx (allowlist blocklist : string) (attribute2 : Z)
    (attribute1 : string) (webfilterlist : Z)
| UpdateAssetTx (allowlist blocklist : string) (attribute2 : Z)
    (attribute1 : string) (webfilterlist : Z)
| DeleteAssetTx (allowlist : string)
| TransferAssetTx (allowlist newattribute1 : string).

(** The stub a transaction leaves behind. *)
Definition invoke (tx : invocation) (ctx : Stub) : Stub :=
  match tx with
  | InitLedgerTx => snd (InitLedger ctx)
  | CreateAssetTx k b a2 a1 w => snd (CreateAsset ctx k b a2 a1 w)
  | UpdateAssetTx k b a2 a1 w => snd (UpdateAsset ctx k b a2 a1 w)
  | DeleteAssetTx k => snd (DeleteAsset ctx k)
  | TransferAssetTx k v => snd (TransferAsset ctx k v)
  end.

(** The key a transaction is called with; [InitLedger] takes none. *)
Definition keyOf (tx : invocation) : option string :=
  match tx with
  | InitLedgerTx => None
  | CreateAssetTx k _ _ _ _ | UpdateAssetTx k _ _ _ _ => Some k
  | DeleteAssetTx k | TransferAssetTx k _ => Some k
  end.

(** The stubs reached from an empty world state by a sequence of
    transactions that each satisfy [allowed]. *)
Inductive reachable (allowed : invocation -> Prop) : Stub -> Prop :=
| reachable_empty ctx : world ctx = ∅ -> reachable allowed ctx
| reachable_invoke ctx tx :
    reachable allowed ctx -> allowed tx -> reachable allowed (invoke tx ctx).

(** The record of the running example, [Create("www.test.com","",5,"",300)],
    the stub that call leaves when it starts from the empty world state, and
    the stub [InitLedger] leaves. *)
Definition created : Asset :=
  {| allowlist := "www.test.com"; blocklist := ""; attribute2 := 5;
     attribute1 := ""; webfilterlist := 300 |}.

Definition afterCreate : Stub :=
  snd (CreateAsset emptyStub "www.test.com" "" 5 "" 300).

Definition seeded : Stub := snd (InitLedger emptyStub).

(** A stub whose every read fails. *)
Definition unreadableStub : Stub :=
  {| world := ∅; issued := [];
     getFault := fun _ => Some "unavailable"; putFault := fun _ _ => None;
     delFault := fun _ => None; rangeFault := None;
     nextFault := fun _ => None |}.

(** A stub that refuses to write under the empty key and never fails
    otherwise. *)
Definition strictStub : Stub :=
  {| world := ∅; issued := [];
     getFault := fun _ => None;
     putFault := fun key _ =>
       if (key =? "")%string then Some "key must not be an empty string"
       else None;
     delFault := fun _ => None; rangeFault := None;
     nextFault := fun _ => None |}.

(** Encoding a record and decoding the bytes into a fresh [Asset]. *)
Definition roundTrip (r : Asset) : result Asset :=
  match json_Marshal r with
  | Ok data => json_Unmarshal data zeroAsset
  | Err err => Err err
  end.

(** The field order of the data model: allowlist, blocklist, attribute2,
    attribute1, webfilterlist. *)
Definition canonicalOrder : list string :=
  ["allowlist"; "blocklist"; "attribute2"; "attribute1"; "webfilterlist"].

(** The order of the struct declaration. *)
Definition declaredOrder : list string := map jsonName Asset_fields.

(** [data] holds a member for each of [names], one after the other: the
    text [ "name": ] of each is found behind that of the one before. *)
Fixpoint membersInOrder (names : list string) (from : nat) (data : string)
  : bool :=
  match names with
  | [] => true
  | name :: rest =>
      let member := quoted name +:+ ":" in
      match String.index from member data with
      | Some at_ => membersInOrder rest (at_ + String.length member) data
      | None => false
      end
  end.

(** A stub that answers every write under the empty key with an error. *)
Definition refusesEmptyKey (ctx : Stub) : Prop :=
  forall value : string, putFault ctx "" value <> None.

(** A transaction that never asks for a put under the empty key on a world
    state that holds nothing under it: anything but [InitLedger], two of
    whose assets have the empty key, and a [CreateAsset] of the empty key.
    [UpdateAsset] and [TransferAsset] put only under a key that holds a
    record, and [DeleteAsset] puts nothing. *)
Definition sparesEmptyKey (tx : invocation) : Prop :=
  match tx with
  | InitLedgerTx => False
  | CreateAssetTx k _ _ _ _ => k <> ""
  | _ => True
  end.

(** The keys [InitLedger] writes under. *)
Definition seedKeys : list string := map allowlist assets.

(** The world state after a write of [{}] under the key of each asset of
    [todo], in order. *)
Definition putAll (todo : list Asset) (m : gmap string string)
  : gmap string string :=
  foldl (fun m asset => <[allowlist asset := "{}"]> m) m todo.

(** A stub whose range scan starts and advances without fault. *)
Definition scans (ctx : Stub) : Prop :=
  rangeFault ctx = None /\ forall key : string, nextFault ctx key = None.

(** A stub without faults whose world state holds a record the contract
    wrote and, under another key, bytes that are no JSON document. *)
Definition garbledStub : Stub :=
  {| world := <["www.xxx.com" := "flag"]> (<["www.test.com" := "{}"]> ∅);
     issued := [];
     getFault := fun _ => None; putFault := fun _ _ => None;
     delFault := fun _ => None; rangeFault := None;
     nextFault := fun _ => None |}.

(** * Properties *)

(** ** The scanner on sample documents *)

Example checkValid_examples :
  map scanner.checkValid
    ["{}"; " { } "; "null"; "-12.5e+3";
     "[1, {" +:+ quoted "a" +:+ ": " +:+ quoted "bé\n" +:+ "}]";
     "{" +:+ quoted "allowlist" +:+ ":" +:+ quoted "www.test.com" +:+ ","
         +:+ quoted "attribute2" +:+ ":5}";
     ""; "{"; "{}}"; "01"; "{" +:+ quoted "a" +:+ " 1}"; "[1,]"; "nul"; "{,}";
     "1."; quoted "\x"]
  = [true; true; true; true; true; true;
     false; false; false; false; false; false; false; false; false; false].
Proof. vm_compute. reflexivity. Qed.

(** ** What [encoding/json] does with an [Asset] *)

(** Every field of the struct starts with a lower-case letter. *)
Lemma exportedFields_nil : exportedFields = [].
Proof. reflexivity. Qed.

Lemma json_Marshal_braces (a : Asset) : json_Marshal a = Ok "{}".
Proof. unfold json_Marshal. rewrite exportedFields_nil. reflexivity. Qed.

(** Decoding never changes the struct it decodes into. *)
Lemma json_Unmarshal_same (data : string) (v a : Asset) :
  json_Unmarshal data v = Ok a -> a = v.
Proof.
  unfold json_Unmarshal. intros H.
  repeat case_match; congruence.
Qed.

Lemma json_Unmarshal_braces (v : Asset) : json_Unmarshal "{}" v = Ok v.
Proof. reflexivity. Qed.

(** ** Reads *)

Section Reads.
Variable ctx : Stub.
Variable key : string.

Lemma GetState_absent :
  getFault ctx key = None -> world ctx !! key = None ->
  GetState ctx key = Ok None.
Proof. intros Hf Hw. unfold GetState. rewrite Hf, Hw. reflexivity. Qed.

Lemma GetState_present (value : string) :
  getFault ctx key = None -> world ctx !! key = Some value ->
  GetState ctx key = Ok (Some value).
Proof. intros Hf Hw. unfold GetState. rewrite Hf, Hw. reflexivity. Qed.

Lemma GetState_Ok (found : option string) :
  GetState ctx key = Ok found ->
  getFault ctx key = None /\ found = world ctx !! key.
Proof.
  unfold GetState. destruct (getFault ctx key); intros H; [discriminate|].
  split; congruence.
Qed.

Lemma AssetExists_Ok (b : bool) :
  AssetExists ctx key = Ok b ->
  getFault ctx key = None /\
  (if b then is_Some (world ctx !! key) else world ctx !! key = None).
Proof.
  unfold AssetExists. destruct (GetState ctx key) as [found|] eqn:E; [|discriminate].
  apply GetState_Ok in E as [Hf ->]. intros [= <-]. split; [exact Hf|].
  destruct (world ctx !! key); eauto.
Qed.

(** Whatever [ReadAsset] finds, it returns the zero record. *)
Lemma ReadAsset_Ok (a : Asset) : ReadAsset ctx key = Ok a -> a = zeroAsset.
Proof.
  unfold ReadAsset. destruct (GetState ctx key) as [[assetJSON|]|]; try discriminate.
  apply json_Unmarshal_same.
Qed.

End Reads.

(** ** Writes *)

(** A transaction called with a key leaves every other key as it was. *)
Lemma invoke_other_keys (tx : invocation) (ctx : Stub) (k j : string) :
  keyOf tx = Some k -> j <> k -> world (invoke tx ctx) !! j = world ctx !! j.
Proof.
  intros Hk Hj.
  assert (Hput : forall value, world (PutState ctx k value).2 !! j = world ctx !! j).
  { intros value. unfold PutState. destruct (putFault ctx k value); simpl; [done|].
    by rewrite lookup_insert_ne. }
  assert (Hdel : world (DelState ctx k).2 !! j = world ctx !! j).
  { unfold DelState. destruct (delFault ctx k); simpl; [done|].
    by rewrite lookup_delete_ne. }
  destruct tx; simpl in Hk; simplify_eq; simpl.
  - unfold CreateAsset. destruct (AssetExists ctx k) as [[]|]; try done.
    rewrite json_Marshal_braces. apply Hput.
  - unfold UpdateAsset. destruct (AssetExists ctx k) as [[]|]; try done.
    rewrite json_Marshal_braces. apply Hput.
  - unfold DeleteAsset. destruct (AssetExists ctx k) as [[]|]; try done.
  - unfold TransferAsset. destruct (ReadAsset ctx k); [|done].
    rewrite json_Marshal_braces. specialize (Hput "{}").
    destruct (PutState ctx k "{}") as [[err|] ctx']; exact Hput.
Qed.

(** ** The serialized record *)

(** C1.  The encoding of a record holds none of its fields, and decoding it
    yields the zero record: the round trip [decode(encode(r))] returns the
    zero record for every [r], and so does not return the record of the
    running example. *)
Theorem roundTrip_zeroAsset :
  (forall r : Asset, json_Marshal r = Ok "{}" /\ roundTrip r = Ok zeroAsset)
  /\ roundTrip created <> Ok created.
Proof.
  split.
  - intros r. unfold roundTrip. rewrite json_Marshal_braces. split; reflexivity.
  - unfold roundTrip. rewrite json_Marshal_braces, json_Unmarshal_braces.
    discriminate.
Qed.

(** ** Create, read, transfer *)

(** What a successful [PutState] of [{}] leaves for [ReadAsset]. *)
Lemma PutState_then_ReadAsset (ctx ctx' : Stub) (k : string) :
  getFault ctx k = None -> PutState ctx k "{}" = (None, ctx') ->
  ReadAsset ctx' k = Ok zeroAsset.
Proof.
  intros Hread. unfold PutState.
  destruct (putFault ctx k "{}"); [discriminate|]. intros [= <-].
  unfold ReadAsset.
  rewrite (GetState_present _ _ "{}"); [reflexivity|exact Hread|].
  apply lookup_insert_eq.
Qed.

(** Every successful [CreateAsset] is followed by a [ReadAsset] of the zero
    record. *)
Lemma CreateAsset_then_ReadAsset (ctx ctx' : Stub) (k b : string) (a2 : Z)
    (a1 : string) (w : Z) :
  CreateAsset ctx k b a2 a1 w = (None, ctx') -> ReadAsset ctx' k = Ok zeroAsset.
Proof.
  unfold CreateAsset.
  destruct (AssetExists ctx k) as [[]|] eqn:Hex; try discriminate.
  apply AssetExists_Ok in Hex as [Hread _].
  rewrite json_Marshal_braces. by apply PutState_then_ReadAsset.
Qed.

(** Every successful [TransferAsset] returns the empty string and is
    followed by a [ReadAsset] of the zero record. *)
Lemma TransferAsset_then_ReadAsset (ctx ctx' : Stub) (k v old : string) :
  TransferAsset ctx k v = (Ok old, ctx') ->
  old = "" /\ ReadAsset ctx' k = Ok zeroAsset.
Proof.
  unfold TransferAsset.
  destruct (ReadAsset ctx k) as [a|] eqn:Hr; [|discriminate].
  pose proof (ReadAsset_Ok _ _ _ Hr) as ->.
  assert (Hread : getFault ctx k = None).
  { unfold ReadAsset in Hr.
    destruct (GetState ctx k) as [found|] eqn:Hg; [|discriminate].
    by apply GetState_Ok in Hg as [? _]. }
  rewrite json_Marshal_braces.
  destruct (PutState ctx k "{}") as [[err|] ctx''] eqn:Hp; [discriminate|].
  intros [= <- <-]. split; [reflexivity|].
  by apply (PutState_then_ReadAsset ctx).
Qed.

(** C3.  [Create("www.test.com","",5,"",300)] on the empty world state
    succeeds and stores [{}] under the key; the [Read] that follows returns
    the zero record, which is not the record that was created.  The same
    holds after any successful create: the read returns the zero record. *)
Theorem create_then_read_zeroAsset :
  (fst (CreateAsset emptyStub "www.test.com" "" 5 "" 300) = None
   /\ world afterCreate !! "www.test.com" = Some "{}"
   /\ ReadAsset afterCreate "www.test.com" = Ok zeroAsset
   /\ zeroAsset <> created)
  /\ forall (ctx ctx' : Stub) (k b : string) (a2 : Z) (a1 : string) (w : Z),
       CreateAsset ctx k b a2 a1 w = (None, ctx') ->
       ReadAsset ctx' k = Ok zeroAsset.
Proof.
  split; [|exact CreateAsset_then_ReadAsset].
  repeat split; try (vm_compute; reflexivity). discriminate.
Qed.

(** C2.  After [Create("www.test.com","",5,"",300)], the call
    [Transfer("www.test.com","flag")] returns the empty string and writes
    [{}] back; the [Read] that follows shows the zero record, whose attribute1
    is the empty string and not ["flag"].  The same holds after any
    successful transfer: it has returned the empty string, and the read
    returns the zero record. *)
Theorem transfer_then_read_zeroAsset :
  (fst (TransferAsset afterCreate "www.test.com" "flag") = Ok ""
   /\ world (snd (TransferAsset afterCreate "www.test.com" "flag"))
        !! "www.test.com" = Some "{}"
   /\ ReadAsset (snd (TransferAsset afterCreate "www.test.com" "flag"))
        "www.test.com" = Ok zeroAsset
   /\ attribute1 zeroAsset <> "flag")
  /\ forall (ctx ctx' : Stub) (k v old : string),
       TransferAsset ctx k v = (Ok old, ctx') ->
       old = "" /\ ReadAsset ctx' k = Ok zeroAsset.
Proof.
  split; [|exact TransferAsset_then_ReadAsset].
  repeat split; try (vm_compute; reflexivity). discriminate.
Qed.

(** ** Seeding *)

(** C4.  [InitLedger] on the empty world state succeeds.  It writes six
    times, twice under the empty key, and leaves five keys; [GetAllAssets]
    then returns five zero records, none of them a seeded record.  Every
    seeded key exists. *)
Theorem InitLedger_then_GetAllAssets :
  fst (InitLedger emptyStub) = None
  /\ length (issued seeded) = 6%nat
  /\ size (world seeded) = 5%nat
  /\ GetAllAssets seeded = Ok (replicate 5 zeroAsset)
  /\ Forall (fun a => a <> zeroAsset) assets
  /\ Forall (fun a => AssetExists seeded (allowlist a) = Ok true) assets.
Proof.
  repeat split; try (vm_compute; reflexivity).
  - repeat constructor; discriminate.
  - repeat constructor.
Qed.

(** ** Keys that are absent, keys that are present *)

(** C5.  For a key that is absent from the world state, on a stub that
    reads it without fault: [AssetExists] returns false, and [ReadAsset],
    [UpdateAsset] and [DeleteAsset] fail with "does not exist"; the stub,
    world state and issued writes, is as it was. *)
Theorem absent_key_not_found (ctx : Stub) (k b : string) (a2 : Z)
    (a1 : string) (w : Z)
    (Habsent : world ctx !! k = None) (Hread : getFault ctx k = None) :
  AssetExists ctx k = Ok false
  /\ ReadAsset ctx k = Err (DoesNotExist k)
  /\ UpdateAsset ctx k b a2 a1 w = (Some (DoesNotExist k), ctx)
  /\ DeleteAsset ctx k = (Some (DoesNotExist k), ctx).
Proof.
  assert (Hex : AssetExists ctx k = Ok false).
  { unfold AssetExists. by rewrite GetState_absent. }
  repeat split.
  - exact Hex.
  - unfold ReadAsset. by rewrite GetState_absent.
  - unfold UpdateAsset. by rewrite Hex.
  - unfold DeleteAsset. by rewrite Hex.
Qed.

Lemma absent_key_not_found_witness :
  (world emptyStub !! "www.test.com" = None
   /\ getFault emptyStub "www.test.com" = None)
  /\ (AssetExists emptyStub "www.test.com" = Ok false
      /\ ReadAsset emptyStub "www.test.com" = Err (DoesNotExist "www.test.com")
      /\ UpdateAsset emptyStub "www.test.com" "" 5 "flag" 300
         = (Some (DoesNotExist "www.test.com"), emptyStub)
      /\ DeleteAsset emptyStub "www.test.com"
         = (Some (DoesNotExist "www.test.com"), emptyStub)).
Proof.
  split; [split; reflexivity|].
  apply (absent_key_not_found emptyStub "www.test.com" "" 5 "flag" 300);
    reflexivity.
Defined.

(** C6.  For a key that is present, on a stub that reads it without fault,
    [CreateAsset] fails with "already exists" and leaves the stub, world
    state and issued writes, as it was.  And whenever [CreateAsset] returns
    no error, its existence check had returned false. *)
Theorem CreateAsset_existing_key (ctx : Stub) (k b : string) (a2 : Z)
    (a1 : string) (w : Z) :
  (is_Some (world ctx !! k) -> getFault ctx k = None ->
   CreateAsset ctx k b a2 a1 w = (Some (AlreadyExists k), ctx))
  /\ (fst (CreateAsset ctx k b a2 a1 w) = None -> AssetExists ctx k = Ok false).
Proof.
  split.
  - intros [value Hvalue] Hread. unfold CreateAsset, AssetExists.
    by rewrite (GetState_present _ _ value).
  - unfold CreateAsset. destruct (AssetExists ctx k) as [[]|]; simpl; congruence.
Qed.

Lemma CreateAsset_existing_key_witness :
  CreateAsset afterCreate "www.test.com" "www.xxx.com" 7 "flag" 400
    = (Some (AlreadyExists "www.test.com"), afterCreate)
  /\ AssetExists emptyStub "www.test.com" = Ok false.
Proof.
  split.
  - apply (proj1 (CreateAsset_existing_key afterCreate "www.test.com"
                    "www.xxx.com" 7 "flag" 400)).
    + exists "{}". vm_compute. reflexivity.
    + reflexivity.
  - apply (proj2 (CreateAsset_existing_key emptyStub "www.test.com" "" 5 "" 300)).
    vm_compute. reflexivity.
Defined.

(** C7.  After a successful [DeleteAsset] of a present key, the key is
    absent: [ReadAsset] fails with "does not exist", and so does a second
    [DeleteAsset], which changes nothing. *)
Theorem DeleteAsset_then_not_found (ctx ctx' : Stub) (k : string)
    (Hpresent : is_Some (world ctx !! k))
    (Hdeleted : DeleteAsset ctx k = (None, ctx')) :
  world ctx' !! k = None
  /\ ReadAsset ctx' k = Err (DoesNotExist k)
  /\ DeleteAsset ctx' k = (Some (DoesNotExist k), ctx').
Proof.
  unfold DeleteAsset in Hdeleted.
  destruct (AssetExists ctx k) as [[]|] eqn:Hex; try discriminate.
  apply AssetExists_Ok in Hex as [Hread _].
  unfold DelState in Hdeleted.
  destruct (delFault ctx k); [discriminate|].
  injection Hdeleted as <-.
  assert (Hgone : world (after (DelCall k) (delete k (world ctx)) ctx) !! k = None)
    by apply lookup_delete_eq.
  split; [exact Hgone|].
  pose proof (absent_key_not_found _ k "" 0 "" 0 Hgone Hread) as (_ & Hr & _ & Hd).
  split; assumption.
Qed.

Lemma DeleteAsset_then_not_found_witness :
  (is_Some (world afterCreate !! "www.test.com")
   /\ fst (DeleteAsset afterCreate "www.test.com") = None)
  /\ world (snd (DeleteAsset afterCreate "www.test.com")) !! "www.test.com" = None
  /\ ReadAsset (snd (DeleteAsset afterCreate "www.test.com")) "www.test.com"
     = Err (DoesNotExist "www.test.com")
  /\ DeleteAsset (snd (DeleteAsset afterCreate "www.test.com")) "www.test.com"
     = (Some (DoesNotExist "www.test.com"),
        snd (DeleteAsset afterCreate "www.test.com")).
Proof.
  split.
  - split; [exists "{}"|]; vm_compute; reflexivity.
  - apply (DeleteAsset_then_not_found afterCreate).
    + exists "{}". vm_compute. reflexivity.
    + vm_compute. reflexivity.
Defined.

(** ** Failing checks write nothing *)

(** C10.  When the existence check of [CreateAsset], [UpdateAsset] or
    [DeleteAsset], or the read of [TransferAsset], ends in an error (the
    read itself failed, the key exists for a create, the key is missing for
    an update, delete or transfer, or the bytes do not decode), the
    operation returns that error and the stub it leaves is the stub it
    got: the same world state and not one more issued write. *)
Theorem failed_check_leaves_stub (ctx : Stub) (k b : string) (a2 : Z)
    (a1 : string) (w : Z) (v : string) (e : error) :
  (AssetExists ctx k = Err e ->
     CreateAsset ctx k b a2 a1 w = (Some e, ctx)
     /\ UpdateAsset ctx k b a2 a1 w = (Some e, ctx)
     /\ DeleteAsset ctx k = (Some e, ctx))
  /\ (AssetExists ctx k = Ok true ->
     CreateAsset ctx k b a2 a1 w = (Some (AlreadyExists k), ctx))
  /\ (AssetExists ctx k = Ok false ->
     UpdateAsset ctx k b a2 a1 w = (Some (DoesNotExist k), ctx)
     /\ DeleteAsset ctx k = (Some (DoesNotExist k), ctx))
  /\ (ReadAsset ctx k = Err e -> TransferAsset ctx k v = (Err e, ctx)).
Proof.
  unfold CreateAsset, UpdateAsset, DeleteAsset, TransferAsset.
  split; [|split; [|split]]; intros ->; auto.
Qed.

Lemma failed_check_leaves_stub_witness :
  (CreateAsset unreadableStub "www.test.com" "" 5 "" 300
     = (Some (FailedToRead (StubError "unavailable")), unreadableStub)
   /\ UpdateAsset unreadableStub "www.test.com" "" 5 "" 300
     = (Some (FailedToRead (StubError "unavailable")), unreadableStub)
   /\ DeleteAsset unreadableStub "www.test.com"
     = (Some (FailedToRead (StubError "unavailable")), unreadableStub))
  /\ CreateAsset afterCreate "www.test.com" "" 5 "" 300
     = (Some (AlreadyExists "www.test.com"), afterCreate)
  /\ (UpdateAsset emptyStub "www.test.com" "" 5 "" 300
     = (Some (DoesNotExist "www.test.com"), emptyStub)
   /\ DeleteAsset emptyStub "www.test.com"
     = (Some (DoesNotExist "www.test.com"), emptyStub))
  /\ TransferAsset emptyStub "www.test.com" "flag"
     = (Err (DoesNotExist "www.test.com"), emptyStub).
Proof.
  split; [|split; [|split]].
  - apply (proj1 (failed_check_leaves_stub unreadableStub "www.test.com" ""
                    5 "" 300 "flag" (FailedToRead (StubError "unavailable")))).
    reflexivity.
  - apply (proj1 (proj2 (failed_check_leaves_stub afterCreate "www.test.com" ""
                    5 "" 300 "flag" SyntaxError))).
    vm_compute. reflexivity.
  - apply (proj1 (proj2 (proj2 (failed_check_leaves_stub emptyStub
                    "www.test.com" "" 5 "" 300 "flag" SyntaxError)))).
    reflexivity.
  - apply (proj2 (proj2 (proj2 (failed_check_leaves_stub emptyStub
                    "www.test.com" "" 5 "" 300 "flag"
                    (DoesNotExist "www.test.com"))))).
    reflexivity.
Defined.

(** ** Finding a member in an encoding *)

Lemma append_String (c : ascii) (s1 s2 : string) :
  String c s1 +:+ s2 = String c (s1 +:+ s2).
Proof. reflexivity. Qed.

Lemma length_append (s1 s2 : string) :
  String.length (s1 +:+ s2) = (String.length s1 + String.length s2)%nat.
Proof.
  induction s1 as [|c s1 IH]; [reflexivity|].
  rewrite append_String. cbn [String.length]. by rewrite IH.
Qed.

Lemma append_assoc (s1 s2 s3 : string) : (s1 +:+ s2) +:+ s3 = s1 +:+ (s2 +:+ s3).
Proof.
  induction s1 as [|c s1 IH]; [reflexivity|].
  rewrite !append_String. by rewrite IH.
Qed.

Lemma append_empty_r (s : string) : s +:+ "" = s.
Proof.
  induction s as [|c s IH]; [reflexivity|]. rewrite append_String. by rewrite IH.
Qed.

Lemma substring_prefix (pat post : string) :
  substring 0 (String.length pat) (pat +:+ post) = pat.
Proof.
  induction pat as [|c pat IH].
  - by destruct post.
  - rewrite append_String. cbn [String.length substring]. by rewrite IH.
Qed.

(** The text right behind [pre] is found at position [length pre]. *)
Lemma substring_at (pre pat post : string) :
  substring (String.length pre) (String.length pat) (pre +:+ pat +:+ post) = pat.
Proof.
  induction pre as [|c pre IH]; [exact (substring_prefix pat post)|].
  rewrite append_String. cbn [String.length substring]. exact IH.
Qed.

(** A text that occurs at or behind the start of a search is found, there
    or earlier. *)
Lemma index_found (from at_ : nat) (pat data : string) :
  pat <> "" -> (from <= at_)%nat ->
  substring at_ (String.length pat) data = pat ->
  exists p, String.index from pat data = Some p /\ (p <= at_)%nat.
Proof.
  intros Hpat Hle Hsub.
  destruct (String.index from pat data) as [p|] eqn:Hidx.
  - exists p. split; [reflexivity|].
    destruct (decide (p <= at_)%nat) as [|Hgt]; [done|].
    exfalso. apply (index_correct2 _ _ _ _ Hidx at_); [done|lia|done].
  - exfalso. by apply (index_correct3 _ at_ _ _ Hidx).
Qed.

Lemma concat_cons (sep x : string) (xs : list string) :
  String.concat sep (x :: xs)
  = x +:+ match xs with [] => "" | _ :: _ => sep +:+ String.concat sep xs end.
Proof. destruct xs; [by rewrite append_empty_r|reflexivity]. Qed.

(** The members of [fields], written one after the other with commas in
    between, are found in that order by a search that starts before them. *)
Lemma membersInOrder_members (r : Asset) (fields : list structField) :
  forall (pre post data : string) (from : nat),
    (from <= String.length pre)%nat ->
    data = pre +:+ String.concat "," (map (encodeField r) fields) +:+ post ->
    membersInOrder (map jsonName fields) from data = true.
Proof.
  induction fields as [|f fields IH]; intros pre post data from Hfrom Hdata;
    [reflexivity|].
  cbn [map] in Hdata. rewrite concat_cons in Hdata. unfold encodeField at 1 in Hdata.
  rewrite !append_assoc in Hdata.
  cbn [map membersInOrder].
  set (pat := quoted (jsonName f) +:+ ":").
  destruct (index_found from (String.length pre) pat data) as (p & -> & Hp);
    [done|done| |].
  { rewrite Hdata, <- (append_assoc (quoted (jsonName f)) ":").
    apply substring_at. }
  destruct fields as [|g fields]; [reflexivity|].
  apply (IH (pre +:+ pat +:+ 
              match fieldOf f with
              | IntField get => pretty (get r)
              | StringField get => quoted (appendString (get r))
              end +:+ ",") post).
  - rewrite !length_append. lia.
  - rewrite Hdata. unfold pat. by rewrite !append_assoc.
Qed.

(** Whatever fields the encoder is given, it writes their members in the
    order of the list. *)
Lemma membersInOrder_encodeStruct (fields : list structField) (r : Asset) :
  membersInOrder (map jsonName fields) 0 (encodeStruct fields r) = true.
Proof. apply (membersInOrder_members r fields "{" "}"); [simpl; lia|reflexivity]. Qed.

(** ** The order of the fields *)

(** Were all five fields written, they would come in the order of the
    declaration, which is not the order of the data model. *)
Example encodeStruct_all_fields :
  encodeStruct Asset_fields created
  = "{" +:+ quoted "webfilterlist" +:+ ":300," +:+ quoted "blocklist" +:+ ":"
        +:+ quoted "" +:+ "," +:+ quoted "allowlist" +:+ ":"
        +:+ quoted "www.test.com" +:+ "," +:+ quoted "attribute1" +:+ ":"
        +:+ quoted "" +:+ "," +:+ quoted "attribute2" +:+ ":5}"
  /\ membersInOrder declaredOrder 0 (encodeStruct Asset_fields created) = true
  /\ membersInOrder canonicalOrder 0 (encodeStruct Asset_fields created) = false.
Proof. repeat split; vm_compute; reflexivity. Qed.

(** What the string writer does with bytes that need care. *)
Example appendString_examples :
  appendString ("a<b" +:+ String "034" (String "008" (String "012"
                 (String "010" (String "001" (String "127" "\z"))))))
  = "a\u003cb\" +:+ String "034" ("\b\f\n\u0001" +:+ String "127" "\\z")
  /\ appendString (String "195" (String "169" "!")) = String "195" (String "169" "!")
  /\ appendString (String "226" (String "128" (String "168" "!"))) = "\u2028!"
  /\ appendString (String "226" (String "128" (String "169" "!"))) = "\u2029!"
  /\ appendString (String "226" (String "128" EmptyString)) = "\ufffd\ufffd"
  /\ appendString (String "255" (String "192" "a")) = "\ufffd\ufffda"
  /\ appendString (String "237" (String "160" (String "128" EmptyString)))
     = "\ufffd\ufffd\ufffd"
  /\ appendString (String "240" (String "159" (String "152" (String "128" "!"))))
     = String "240" (String "159" (String "152" (String "128" "!"))).
Proof. repeat split; vm_compute; reflexivity. Qed.

(** C8.  The encoding of every record is the two bytes [{}]: it holds no
    member for allowlist, let alone the five members in the order of the
    data model. *)
Theorem json_Marshal_not_canonical :
  (forall r : Asset, json_Marshal r = Ok "{}")
  /\ membersInOrder ["allowlist"] 0 "{}" = false
  /\ membersInOrder canonicalOrder 0 "{}" = false.
Proof.
  split; [exact json_Marshal_braces|]. split; vm_compute; reflexivity.
Qed.

(** ** Keys of the world state *)

(** On a stub that refuses the empty key, [InitLedger] stops at its second
    asset with the stub's error wrapped, the first asset already written. *)
Example InitLedger_strictStub :
  fst (InitLedger strictStub)
  = Some (FailedToPut (StubError "key must not be an empty string"))
  /\ map_to_list (world (snd (InitLedger strictStub)))
     = [("www.google.com", "{}")].
Proof. split; vm_compute; reflexivity. Qed.

(** C9, as stated, fails: [CreateAsset] takes the empty string as a key like
    any other, and from the empty world state leaves a record under it.  So
    does [InitLedger], two of whose assets have the empty key. *)
Lemma CreateAsset_empty_key :
  (reachable (fun _ => True) (invoke (CreateAssetTx "" "www.xxx.com" 5 "" 400) emptyStub)
   /\ fst (CreateAsset emptyStub "" "www.xxx.com" 5 "" 400) = None
   /\ world (invoke (CreateAssetTx "" "www.xxx.com" 5 "" 400) emptyStub) !! ""
      = Some "{}")
  /\ (reachable (fun _ => True) seeded
      /\ PutCall "" "{}" ∈ issued seeded
      /\ world seeded !! "" = Some "{}").
Proof.
  assert (Hempty : reachable (fun _ => True) emptyStub) by by apply reachable_empty.
  split; split.
  - by apply reachable_invoke.
  - split; vm_compute; reflexivity.
  - by apply (reachable_invoke _ emptyStub InitLedgerTx).
  - split; [|vm_compute; reflexivity].
    vm_compute. apply list_elem_of_further, list_elem_of_here.
Qed.

(** *** On a stub that refuses the empty key

    There the empty key stays out of the world state whatever is called,
    [InitLedger] included: the write under the empty key is asked for and
    refused. *)

Lemma PutState_refused_empty_key (ctx : Stub) (k value : string) :
  refusesEmptyKey ctx -> world ctx !! "" = None ->
  refusesEmptyKey (PutState ctx k value).2
  /\ world (PutState ctx k value).2 !! "" = None.
Proof.
  intros Hrefuses Hnone. unfold PutState.
  destruct (putFault ctx k value) eqn:Hfault; simpl; split; try done.
  destruct (decide (k = "")) as [->|Hk].
  - by destruct (Hrefuses value).
  - by rewrite lookup_insert_ne.
Qed.

Lemma InitLedger_range_refused_empty_key (todo : list Asset) :
  forall ctx : Stub,
    refusesEmptyKey ctx -> world ctx !! "" = None ->
    world (InitLedger_range todo ctx).2 !! "" = None.
Proof.
  induction todo as [|asset todo IH]; intros ctx Hrefuses Hnone; [exact Hnone|].
  cbn [InitLedger_range]. rewrite json_Marshal_braces.
  destruct (PutState_refused_empty_key ctx (allowlist asset) "{}" Hrefuses Hnone)
    as [Hrefuses' Hnone'].
  destruct (PutState ctx (allowlist asset) "{}") as [[err|] ctx']; [exact Hnone'|].
  by apply IH.
Qed.

Lemma invoke_refused_empty_key (tx : invocation) (ctx : Stub) :
  refusesEmptyKey ctx -> world ctx !! "" = None ->
  world (invoke tx ctx) !! "" = None.
Proof.
  intros Hrefuses Hnone.
  pose proof (fun k v => proj2 (PutState_refused_empty_key ctx k v Hrefuses Hnone))
    as Hput.
  destruct tx as [|k b a2 a1 w|k b a2 a1 w|k|k v]; simpl.
  - by apply InitLedger_range_refused_empty_key.
  - unfold CreateAsset. destruct (AssetExists ctx k) as [[]|]; try done.
    rewrite json_Marshal_braces. apply Hput.
  - unfold UpdateAsset. destruct (AssetExists ctx k) as [[]|]; try done.
    rewrite json_Marshal_braces. apply Hput.
  - unfold DeleteAsset, DelState. destruct (AssetExists ctx k) as [[]|]; try done.
    destruct (delFault ctx k); simpl; [done|].
    by apply lookup_delete_None; right.
  - unfold TransferAsset. destruct (ReadAsset ctx k); [|done].
    rewrite json_Marshal_braces. specialize (Hput k "{}").
    by destruct (PutState ctx k "{}") as [[err|] ctx'].
Qed.

Lemma putFault_invoke (tx : invocation) (ctx : Stub) :
  putFault (invoke tx ctx) = putFault ctx.
Proof.
  assert (Hput : forall s k v, putFault (PutState s k v).2 = putFault s).
  { intros s k v. unfold PutState. by destruct (putFault s k v). }
  destruct tx as [|k b a2 a1 w|k b a2 a1 w|k|k v]; simpl.
  - unfold InitLedger. generalize assets. intros todo. revert ctx.
    induction todo as [|asset todo IH]; intros ctx; [done|].
    cbn [InitLedger_range]. rewrite json_Marshal_braces.
    specialize (Hput ctx (allowlist asset) "{}").
    destruct (PutState ctx (allowlist asset) "{}") as [[err|] ctx']; [done|].
    by rewrite IH.
  - unfold CreateAsset. destruct (AssetExists ctx k) as [[]|]; try done.
    rewrite json_Marshal_braces. apply Hput.
  - unfold UpdateAsset. destruct (AssetExists ctx k) as [[]|]; try done.
    rewrite json_Marshal_braces. apply Hput.
  - unfold DeleteAsset, DelState. destruct (AssetExists ctx k) as [[]|]; try done.
    by destruct (delFault ctx k).
  - unfold TransferAsset. destruct (ReadAsset ctx k); [|done].
    rewrite json_Marshal_braces. specialize (Hput ctx k "{}").
    by destruct (PutState ctx k "{}") as [[err|] ctx'].
Qed.

(** Every state such a stub reaches, by any transactions, has no record
    under the empty key. *)
Lemma refusing_stub_keeps_keys (ctx : Stub) :
  reachable (fun _ => True) ctx -> refusesEmptyKey ctx ->
  world ctx !! "" = None.
Proof.
  induction 1 as [ctx Hempty|ctx tx _ IH _]; intros Hrefuses.
  - rewrite Hempty. apply lookup_empty.
  - assert (Hctx : refusesEmptyKey ctx).
    { intros value. rewrite <- (putFault_invoke tx ctx). apply Hrefuses. }
    by apply invoke_refused_empty_key; [|apply IH].
Qed.

Example strictStub_refusesEmptyKey : refusesEmptyKey strictStub.
Proof. intros value. discriminate. Qed.

(** *** With no put asked for under the empty key *)

Lemma invoke_spares_empty_key (tx : invocation) (ctx : Stub) :
  sparesEmptyKey tx -> world ctx !! "" = None ->
  world (invoke tx ctx) !! "" = None.
Proof.
  intros Hspares Hnone.
  destruct (keyOf tx) as [k|] eqn:Hk; [|by destruct tx].
  destruct (decide (k = "")) as [->|Hne].
  - destruct tx as [|k b a2 a1 w|k b a2 a1 w|k|k v]; simpl in *; simplify_eq.
    + unfold UpdateAsset, AssetExists, GetState.
      destruct (getFault ctx ""); [done|]. by rewrite Hnone.
    + unfold DeleteAsset, AssetExists, GetState.
      destruct (getFault ctx ""); [done|]. by rewrite Hnone.
    + unfold TransferAsset, ReadAsset, GetState.
      destruct (getFault ctx ""); [done|]. by rewrite Hnone.
  - rewrite (invoke_other_keys tx ctx k "" Hk); [done|congruence].
Qed.

(** C9, amended.  In every world state reached from the empty one by the
    operations of the contract, [InitLedger] included, the keys are unique:
    a scan of the whole state lists every key that holds a record, and
    lists it once.  No record is stored under the empty key, provided the
    stub refuses a put under the empty key or else no transaction of the
    run was an [InitLedger] or a [CreateAsset] of the empty key;
    [UpdateAsset], [DeleteAsset] and [TransferAsset] may be called with any
    key. *)
Theorem reachable_keys (allowed : invocation -> Prop) (ctx : Stub)
    (Hreach : reachable allowed ctx) :
  (forall entries : list (string * string),
     GetStateByRange ctx "" "" = Ok entries ->
     NoDup entries.*1
     /\ forall k : string, k ∈ entries.*1 <-> is_Some (world ctx !! k))
  /\ (refusesEmptyKey ctx \/ (forall tx, allowed tx -> sparesEmptyKey tx) ->
      world ctx !! "" = None).
Proof.
  split.
  - intros entries. unfold GetStateByRange.
    destruct (rangeFault ctx); [discriminate|]. intros [= <-].
    replace (List.filter _ _) with (map_to_list (world ctx)).
    + split; [apply NoDup_fst_map_to_list|]. intros k. split.
      * intros [[k' v] [-> Hkv]]%list_elem_of_fmap.
        apply elem_of_map_to_list in Hkv. by exists v.
      * intros [v Hv]. apply list_elem_of_fmap. exists (k, v).
        split; [reflexivity|]. by apply elem_of_map_to_list.
    + induction (map_to_list (world ctx)) as [|kv l IH]; simpl; congruence.
  - induction Hreach as [ctx Hempty|ctx tx _ IH Hallowed]; intros Hsafe.
    + rewrite Hempty. apply lookup_empty.
    + destruct Hsafe as [Hrefuses|Hspares].
      * assert (Hctx : refusesEmptyKey ctx).
        { intros value. rewrite <- (putFault_invoke tx ctx). apply Hrefuses. }
        apply invoke_refused_empty_key; [exact Hctx|]. apply IH. by left.
      * apply invoke_spares_empty_key; [by apply Hspares|]. apply IH. by right.
Qed.

Lemma reachable_keys_witness :
  (reachable sparesEmptyKey
     (invoke (UpdateAssetTx "" "www.xxx.com" 5 "" 400) afterCreate)
   /\ world (invoke (UpdateAssetTx "" "www.xxx.com" 5 "" 400) afterCreate) !! ""
      = None)
  /\ (reachable (fun _ => True) (invoke InitLedgerTx strictStub)
      /\ refusesEmptyKey (invoke InitLedgerTx strictStub)
      /\ world (invoke InitLedgerTx strictStub) !! "" = None)
  /\ (forall entries : list (string * string),
        GetStateByRange seeded "" "" = Ok entries ->
        NoDup entries.*1
        /\ forall k : string, k ∈ entries.*1 <-> is_Some (world seeded !! k)).
Proof.
  assert (H1 : reachable sparesEmptyKey
                 (invoke (UpdateAssetTx "" "www.xxx.com" 5 "" 400) afterCreate)).
  { apply reachable_invoke; [|exact I].
    apply (reachable_invoke _ emptyStub (CreateAssetTx "www.test.com" "" 5 "" 300)).
    - by apply reachable_empty.
    - simpl. discriminate. }
  assert (H2 : reachable (fun _ => True) (invoke InitLedgerTx strictStub)).
  { apply reachable_invoke; [|exact I]. by apply reachable_empty. }
  assert (H3 : refusesEmptyKey (invoke InitLedgerTx strictStub)).
  { intros value. vm_compute. discriminate. }
  assert (H4 : reachable (fun _ => True) seeded).
  { apply (reachable_invoke _ emptyStub InitLedgerTx); [|exact I].
    by apply reachable_empty. }
  split; [split; [exact H1|]|split; [split; [exact H2|split; [exact H3|]]|]].
  - apply (proj2 (reachable_keys sparesEmptyKey _ H1)). right. auto.
  - apply (proj2 (reachable_keys (fun _ => True) _ H2)). left. exact H3.
  - exact (proj1 (reachable_keys (fun _ => True) seeded H4)).
Defined.

(** * Further properties of the operations *)

(** ** The stub calls *)

Lemma PutState_None (ctx ctx' : Stub) (k v : string) :
  PutState ctx k v = (None, ctx') ->
  putFault ctx k v = None
  /\ ctx' = after (PutCall k v) (<[k := v]> (world ctx)) ctx.
Proof.
  unfold PutState. destruct (putFault ctx k v); [discriminate|].
  by intros [= <-].
Qed.

Lemma PutState_Some (ctx ctx' : Stub) (k v : string) (e : error) :
  PutState ctx k v = (Some e, ctx') ->
  (exists msg, putFault ctx k v = Some msg /\ e = StubError msg)
  /\ ctx' = after (PutCall k v) (world ctx) ctx.
Proof.
  unfold PutState. destruct (putFault ctx k v) as [msg|]; [|discriminate].
  intros [= <- <-]. eauto.
Qed.

Lemma PutState_ok (ctx : Stub) (k v : string) :
  putFault ctx k v = None ->
  PutState ctx k v = (None, after (PutCall k v) (<[k := v]> (world ctx)) ctx).
Proof. intros H. unfold PutState. by rewrite H. Qed.

Lemma GetStateByRange_all (ctx : Stub) :
  rangeFault ctx = None ->
  GetStateByRange ctx "" "" = Ok (map_to_list (world ctx)).
Proof.
  intros H. unfold GetStateByRange. rewrite H. f_equal.
  induction (map_to_list (world ctx)) as [|kv l IH]; [reflexivity|].
  simpl. by rewrite IH.
Qed.

Lemma AssetExists_absent (ctx : Stub) (k : string) :
  getFault ctx k = None -> world ctx !! k = None -> AssetExists ctx k = Ok false.
Proof. intros Hf Hw. unfold AssetExists. by rewrite GetState_absent. Qed.

Lemma AssetExists_present (ctx : Stub) (k : string) :
  getFault ctx k = None -> is_Some (world ctx !! k) -> AssetExists ctx k = Ok true.
Proof.
  intros Hf [v Hv]. unfold AssetExists. by rewrite (GetState_present _ _ v).
Qed.

(** The only errors of the decoder. *)
Lemma json_Unmarshal_Err (data : string) (v : Asset) (e : error) :
  json_Unmarshal data v = Err e ->
  e = SyntaxError \/ exists value, e = UnmarshalTypeError value.
Proof.
  unfold json_Unmarshal. intros H.
  repeat case_match; try discriminate; injection H as <-; eauto.
Qed.

(** ** Reading *)

(** X1.  [ReadAsset] fails in exactly three ways: the stub failed to read,
    and the error is that failure wrapped; the key holds nothing, and the
    error is "does not exist"; or the key holds bytes the decoder refuses,
    and the error is the decoder's, a syntax or a type error. *)
Theorem ReadAsset_Err_cases (ctx : Stub) (k : string) (e : error)
    (Hfails : ReadAsset ctx k = Err e) :
  (exists msg, getFault ctx k = Some msg /\ e = FailedToRead (StubError msg))
  \/ (getFault ctx k = None /\ world ctx !! k = None /\ e = DoesNotExist k)
  \/ (exists v, getFault ctx k = None /\ world ctx !! k = Some v
                /\ json_Unmarshal v zeroAsset = Err e
                /\ (e = SyntaxError \/ exists value, e = UnmarshalTypeError value)).
Proof.
  unfold ReadAsset, GetState in Hfails.
  destruct (getFault ctx k) as [msg|]; [left; exists msg; split; congruence|].
  right. destruct (world ctx !! k) as [v|].
  - right. exists v. repeat split; try done. by eapply json_Unmarshal_Err.
  - left. repeat split; congruence.
Qed.

Lemma ReadAsset_Err_cases_witness :
  ReadAsset garbledStub "www.xxx.com" = Err SyntaxError
  /\ ((exists msg, getFault garbledStub "www.xxx.com" = Some msg
                   /\ SyntaxError = FailedToRead (StubError msg))
      \/ (getFault garbledStub "www.xxx.com" = None
          /\ world garbledStub !! "www.xxx.com" = None
          /\ SyntaxError = DoesNotExist "www.xxx.com")
      \/ (exists v, getFault garbledStub "www.xxx.com" = None
                    /\ world garbledStub !! "www.xxx.com" = Some v
                    /\ json_Unmarshal v zeroAsset = Err SyntaxError
                    /\ (SyntaxError = SyntaxError
                        \/ exists value, SyntaxError = UnmarshalTypeError value))).
Proof.
  assert (H : ReadAsset garbledStub "www.xxx.com" = Err SyntaxError)
    by (vm_compute; reflexivity).
  split; [exact H|].
  exact (ReadAsset_Err_cases garbledStub "www.xxx.com" SyntaxError H).
Defined.

(** X2.  [AssetExists] and [ReadAsset] agree on absence: the one returns
    false exactly when the other fails with "does not exist". *)
Theorem AssetExists_false_iff_ReadAsset (ctx : Stub) (k : string) :
  AssetExists ctx k = Ok false <-> ReadAsset ctx k = Err (DoesNotExist k).
Proof.
  unfold AssetExists, ReadAsset.
  destruct (GetState ctx k) as [[v|]|err]; split; try done.
  intros H. apply json_Unmarshal_Err in H as [H|[value H]]; discriminate.
Qed.

(** X3.  [AssetExists] does not look at the bytes.  A key that holds bytes
    the decoder refuses exists: it cannot be created, read or transferred
    (the read and the transfer fail with the decoder's error, and the
    transfer writes nothing), but it can be updated, and after the update it
    reads. *)
Theorem undecodable_value (ctx : Stub) (k v b nv : string) (a2 w : Z)
    (a1 : string) (e : error)
    (Hv : world ctx !! k = Some v)
    (Hbad : json_Unmarshal v zeroAsset = Err e)
    (Hget : getFault ctx k = None)
    (Hput : putFault ctx k "{}" = None) :
  AssetExists ctx k = Ok true
  /\ ReadAsset ctx k = Err e
  /\ TransferAsset ctx k nv = (Err e, ctx)
  /\ CreateAsset ctx k b a2 a1 w = (Some (AlreadyExists k), ctx)
  /\ fst (UpdateAsset ctx k b a2 a1 w) = None
  /\ ReadAsset (snd (UpdateAsset ctx k b a2 a1 w)) k = Ok zeroAsset.
Proof.
  assert (Hex : AssetExists ctx k = Ok true) by (apply AssetExists_present; eauto).
  assert (Hr : ReadAsset ctx k = Err e).
  { unfold ReadAsset. by rewrite (GetState_present _ _ v). }
  repeat split; try done.
  - unfold TransferAsset. by rewrite Hr.
  - unfold CreateAsset. by rewrite Hex.
  - unfold UpdateAsset. rewrite Hex, json_Marshal_braces. by rewrite PutState_ok.
  - unfold UpdateAsset. rewrite Hex, json_Marshal_braces.
    apply (PutState_then_ReadAsset ctx); [done|].
    rewrite PutState_ok; [|done]. reflexivity.
Qed.

Lemma undecodable_value_witness :
  AssetExists garbledStub "www.xxx.com" = Ok true
  /\ ReadAsset garbledStub "www.xxx.com" = Err SyntaxError
  /\ TransferAsset garbledStub "www.xxx.com" "flag" = (Err SyntaxError, garbledStub)
  /\ CreateAsset garbledStub "www.xxx.com" "" 5 "" 400
     = (Some (AlreadyExists "www.xxx.com"), garbledStub)
  /\ fst (UpdateAsset garbledStub "www.xxx.com" "" 5 "" 400) = None
  /\ ReadAsset (snd (UpdateAsset garbledStub "www.xxx.com" "" 5 "" 400))
       "www.xxx.com" = Ok zeroAsset.
Proof.
  apply (undecodable_value garbledStub "www.xxx.com" "flag" "" "flag" 5 400 ""
           SyntaxError); vm_compute; reflexivity.
Defined.

(** ** What [InitLedger] writes *)

Lemma putAll_snoc (todo : list Asset) (asset : Asset) (m : gmap string string) :
  putAll (todo ++ [asset]) m = <[allowlist asset := "{}"]> (putAll todo m).
Proof. unfold putAll. by rewrite foldl_app. Qed.

Lemma putAll_lookup_in (todo : list Asset) (m : gmap string string) (a : Asset) :
  a ∈ todo -> putAll todo m !! allowlist a = Some "{}".
Proof.
  induction todo as [|x todo IH] using rev_ind; [by intros ?%elem_of_nil|].
  rewrite putAll_snoc. intros [Hin| ->%list_elem_of_singleton]%elem_of_app.
  - destruct (decide (allowlist x = allowlist a)) as [->|Hne].
    + apply lookup_insert_eq.
    + rewrite lookup_insert_ne; auto.
  - apply lookup_insert_eq.
Qed.

Lemma putAll_lookup_other (todo : list Asset) (m : gmap string string)
    (j : string) :
  j ∉ map allowlist todo -> putAll todo m !! j = m !! j.
Proof.
  induction todo as [|x todo IH] using rev_ind; [done|].
  rewrite putAll_snoc, map_app. intros Hj.
  rewrite lookup_insert_ne.
  - apply IH. intros Hin. apply Hj, elem_of_app. by left.
  - intros Heq. apply Hj, elem_of_app. right. rewrite <- Heq.
    apply list_elem_of_here.
Qed.

Lemma putAll_lookup (todo : list Asset) (m : gmap string string)
    (j v : string) :
  putAll todo m !! j = Some v -> v = "{}" \/ m !! j = Some v.
Proof.
  induction todo as [|x todo IH] using rev_ind; [by right|].
  rewrite putAll_snoc. destruct (decide (allowlist x = j)) as [->|Hne].
  - rewrite lookup_insert_eq. left. congruence.
  - rewrite lookup_insert_ne; auto.
Qed.

(** The writes [InitLedger] asks for, the latest first. *)
Lemma InitLedger_range_spec (todo : list Asset) :
  forall ctx : Stub,
    (exists ctx',
        InitLedger_range todo ctx = (None, ctx')
        /\ Forall (fun a => putFault ctx (allowlist a) "{}" = None) todo
        /\ world ctx' = putAll todo (world ctx)
        /\ issued ctx'
           = map (fun a => PutCall (allowlist a) "{}") (rev todo) ++ issued ctx)
    \/ (exists ctx' done_ a rest msg,
        InitLedger_range todo ctx = (Some (FailedToPut (StubError msg)), ctx')
        /\ todo = done_ ++ a :: rest
        /\ Forall (fun a => putFault ctx (allowlist a) "{}" = None) done_
        /\ putFault ctx (allowlist a) "{}" = Some msg
        /\ world ctx' = putAll done_ (world ctx)
        /\ issued ctx'
           = PutCall (allowlist a) "{}"
             :: map (fun a => PutCall (allowlist a) "{}") (rev done_)
             ++ issued ctx).
Proof.
  induction todo as [|asset todo IH]; intros ctx.
  { left. exists ctx. by repeat split. }
  cbn [InitLedger_range]. rewrite json_Marshal_braces. unfold PutState.
  destruct (putFault ctx (allowlist asset) "{}") as [msg|] eqn:Hfault.
  { right. eexists _, [], asset, todo, msg. by repeat split. }
  set (ctx1 := after _ _ ctx).
  destruct (IH ctx1) as [(ctx' & Hrun & Hall & Hworld & Hissued)
                        |(ctx' & done_ & a & rest & msg & Hrun & -> & Hall & Hmsg
                          & Hworld & Hissued)].
  - left. exists ctx'. rewrite Hrun. repeat split; try done.
    + by constructor.
    + rewrite Hissued. cbn [rev]. rewrite map_app, <- app_assoc. reflexivity.
  - right. exists ctx', (asset :: done_), a, rest, msg.
    rewrite Hrun. repeat split; try done.
    + by constructor.
    + rewrite Hissued. cbn [rev]. rewrite map_app, <- app_assoc. reflexivity.
Qed.

(** Whether it succeeds or stops, [InitLedger] leaves the writes of a prefix
    of its assets. *)
Lemma InitLedger_range_world (todo : list Asset) (ctx : Stub) :
  exists done_ rest,
    todo = done_ ++ rest
    /\ world (InitLedger_range todo ctx).2 = putAll done_ (world ctx).
Proof.
  destruct (InitLedger_range_spec todo ctx)
    as [(ctx' & -> & _ & Hworld & _)
       |(ctx' & done_ & a & rest & msg & -> & -> & _ & _ & Hworld & _)].
  - exists todo, []. by rewrite app_nil_r.
  - by exists done_, (a :: rest).
Qed.

(** ** What the operations write *)

(** X4.  An operation called with a key leaves every other key of the world
    state as it was, and [InitLedger] leaves every key that is not a key of
    its assets as it was; this holds whether the operation succeeds or
    fails. *)
Theorem other_keys_untouched (tx : invocation) (ctx : Stub) (j : string)
    (Hother : match keyOf tx with
              | Some k => j <> k
              | None => j ∉ seedKeys
              end) :
  world (invoke tx ctx) !! j = world ctx !! j.
Proof.
  destruct (keyOf tx) as [k|] eqn:Hk.
  - by apply (invoke_other_keys tx ctx k).
  - destruct tx; try discriminate. simpl. unfold InitLedger.
    destruct (InitLedger_range_world assets ctx) as (done_ & rest & Hsplit & ->).
    apply putAll_lookup_other. intros Hin. apply Hother.
    unfold seedKeys. rewrite Hsplit, map_app. apply elem_of_app. by left.
Qed.

Lemma other_keys_untouched_witness :
  world (invoke InitLedgerTx afterCreate) !! "www.test.com" = Some "{}"
  /\ world (invoke (DeleteAssetTx "www.bbc.co.uk") seeded) !! "www.google.com"
     = Some "{}".
Proof.
  split.
  - rewrite (other_keys_untouched InitLedgerTx afterCreate "www.test.com").
    + vm_compute. reflexivity.
    + vm_compute. intros H. repeat (apply elem_of_cons in H as [H|H]; [discriminate|]).
      by apply elem_of_nil in H.
  - rewrite (other_keys_untouched (DeleteAssetTx "www.bbc.co.uk") seeded
               "www.google.com").
    + vm_compute. reflexivity.
    + discriminate.
Defined.

(** X5.  [UpdateAsset] and [TransferAsset] never add a key to the world
    state and never remove one, whatever they are called with and whether
    they succeed or fail. *)
Theorem UpdateAsset_TransferAsset_keep_keys (ctx : Stub) (k b : string)
    (a2 : Z) (a1 : string) (w : Z) (v : string) :
  dom (world (snd (UpdateAsset ctx k b a2 a1 w))) = dom (world ctx)
  /\ dom (world (snd (TransferAsset ctx k v))) = dom (world ctx).
Proof.
  assert (Hput : forall value, is_Some (world ctx !! k) ->
            dom (world (PutState ctx k value).2) = dom (world ctx)).
  { intros value Hsome. unfold PutState. destruct (putFault ctx k value); [done|].
    simpl. rewrite dom_insert_L. apply subseteq_union_1_L.
    by apply singleton_subseteq_l, elem_of_dom. }
  split.
  - unfold UpdateAsset. destruct (AssetExists ctx k) as [[]|] eqn:Hex; try done.
    apply AssetExists_Ok in Hex as [_ Hsome].
    rewrite json_Marshal_braces. by apply Hput.
  - unfold TransferAsset, ReadAsset.
    destruct (GetState ctx k) as [[found|]|] eqn:Hget; try done.
    apply GetState_Ok in Hget as [_ Hfound].
    destruct (json_Unmarshal found zeroAsset); [|done].
    rewrite json_Marshal_braces.
    specialize (Hput "{}" (ltac:(rewrite <- Hfound; eauto))).
    by destruct (PutState ctx k "{}") as [[err|] ctx'].
Qed.

(** X6.  An operation called with a key asks the stub for at most one
    write, and that write is for its own key: a put of [{}] by
    [CreateAsset], [UpdateAsset] and [TransferAsset], a delete by
    [DeleteAsset]. *)
Theorem one_write_at_most (tx : invocation) (ctx : Stub) (k : string)
    (Hk : keyOf tx = Some k) :
  issued (invoke tx ctx) = issued ctx
  \/ (tx <> DeleteAssetTx k
      /\ issued (invoke tx ctx) = PutCall k "{}" :: issued ctx)
  \/ (tx = DeleteAssetTx k
      /\ issued (invoke tx ctx) = DelCall k :: issued ctx).
Proof.
  assert (Hput : issued (PutState ctx k "{}").2 = PutCall k "{}" :: issued ctx).
  { unfold PutState. by destruct (putFault ctx k "{}"). }
  destruct tx as [|k' b a2 a1 w|k' b a2 a1 w|k'|k' v]; simpl in Hk; simplify_eq;
    simpl.
  - unfold CreateAsset.
    destruct (AssetExists ctx k) as [[]|]; [by left| |by left].
    rewrite json_Marshal_braces. right; left. by split.
  - unfold UpdateAsset.
    destruct (AssetExists ctx k) as [[]|]; [|by left|by left].
    rewrite json_Marshal_braces. right; left. by split.
  - unfold DeleteAsset.
    destruct (AssetExists ctx k) as [[]|]; [|by left|by left].
    right; right. split; [done|]. unfold DelState. by destruct (delFault ctx k).
  - unfold TransferAsset. destruct (ReadAsset ctx k); [|by left].
    rewrite json_Marshal_braces. right; left. split; [done|].
    by destruct (PutState ctx k "{}") as [[err|] ctx'].
Qed.

Lemma one_write_at_most_witness :
  issued (invoke (TransferAssetTx "www.test.com" "flag") afterCreate)
  = [PutCall "www.test.com" "{}"; PutCall "www.test.com" "{}"].
Proof.
  destruct (one_write_at_most (TransferAssetTx "www.test.com" "flag")
              afterCreate "www.test.com" eq_refl) as [H|[[_ H]|[H _]]].
  - vm_compute in H. discriminate.
  - rewrite H. vm_compute. reflexivity.
  - discriminate.
Defined.

(** ** How the operations compose *)

(** X7.  A successful [CreateAsset] followed by a successful [DeleteAsset]
    of the same key leaves the world state exactly as it was before the
    create; the two writes asked for are the put and then the delete. *)
Theorem CreateAsset_DeleteAsset_restores (ctx ctx1 ctx2 : Stub) (k b : string)
    (a2 : Z) (a1 : string) (w : Z)
    (Hcreated : CreateAsset ctx k b a2 a1 w = (None, ctx1))
    (Hdeleted : DeleteAsset ctx1 k = (None, ctx2)) :
  world ctx2 = world ctx
  /\ issued ctx2 = DelCall k :: PutCall k "{}" :: issued ctx.
Proof.
  unfold CreateAsset in Hcreated.
  destruct (AssetExists ctx k) as [[]|] eqn:Hex; try discriminate.
  apply AssetExists_Ok in Hex as [_ Habsent].
  rewrite json_Marshal_braces in Hcreated.
  apply PutState_None in Hcreated as [_ ->].
  unfold DeleteAsset in Hdeleted.
  destruct (AssetExists _ k) as [[]|]; try discriminate.
  unfold DelState in Hdeleted. destruct (delFault _ k); [discriminate|].
  injection Hdeleted as <-. simpl. split; [|reflexivity].
  by apply delete_insert_id.
Qed.

Lemma CreateAsset_DeleteAsset_restores_witness :
  world (snd (DeleteAsset afterCreate "www.test.com")) = world emptyStub
  /\ issued (snd (DeleteAsset afterCreate "www.test.com"))
     = DelCall "www.test.com" :: PutCall "www.test.com" "{}" :: issued emptyStub.
Proof.
  apply (CreateAsset_DeleteAsset_restores emptyStub afterCreate _
           "www.test.com" "" 5 "" 300); vm_compute; reflexivity.
Defined.

(** X8.  On a stub that reads and writes a key without fault, exactly one
    of [CreateAsset] and [UpdateAsset] succeeds for that key: the create
    when the key is absent (the update then fails with "does not exist"),
    the update when it is present (the create then fails with "already
    exists"). *)
Theorem CreateAsset_xor_UpdateAsset (ctx : Stub) (k b b' : string)
    (a2 a2' : Z) (a1 a1' : string) (w w' : Z)
    (Hget : getFault ctx k = None) (Hput : putFault ctx k "{}" = None) :
  (world ctx !! k = None
   /\ fst (CreateAsset ctx k b a2 a1 w) = None
   /\ UpdateAsset ctx k b' a2' a1' w' = (Some (DoesNotExist k), ctx))
  \/ (is_Some (world ctx !! k)
      /\ CreateAsset ctx k b a2 a1 w = (Some (AlreadyExists k), ctx)
      /\ fst (UpdateAsset ctx k b' a2' a1' w') = None).
Proof.
  unfold CreateAsset, UpdateAsset.
  destruct (world ctx !! k) as [v|] eqn:Hv.
  - right. rewrite AssetExists_present by eauto.
    rewrite json_Marshal_braces, PutState_ok by done. eauto.
  - left. rewrite AssetExists_absent by done.
    rewrite json_Marshal_braces, PutState_ok by done. eauto.
Qed.

Lemma CreateAsset_xor_UpdateAsset_witness :
  (world emptyStub !! "www.test.com" = None
   /\ fst (CreateAsset emptyStub "www.test.com" "" 5 "" 300) = None
   /\ UpdateAsset emptyStub "www.test.com" "www.xxx.com" 7 "flag" 400
      = (Some (DoesNotExist "www.test.com"), emptyStub))
  \/ (is_Some (world emptyStub !! "www.test.com")
      /\ CreateAsset emptyStub "www.test.com" "" 5 "" 300
         = (Some (AlreadyExists "www.test.com"), emptyStub)
      /\ fst (UpdateAsset emptyStub "www.test.com" "www.xxx.com" 7 "flag" 400)
         = None).
Proof.
  apply (CreateAsset_xor_UpdateAsset emptyStub "www.test.com" "" "www.xxx.com"
           5 7 "" "flag" 300 400); reflexivity.
Defined.

(** X9.  After any successful [UpdateAsset] the key holds the bytes [{}],
    and the [ReadAsset] that follows returns the zero record, whatever
    field values the update was given. *)
Theorem UpdateAsset_then_ReadAsset (ctx ctx' : Stub) (k b : string) (a2 : Z)
    (a1 : string) (w : Z)
    (Hupdated : UpdateAsset ctx k b a2 a1 w = (None, ctx')) :
  world ctx' = <[k := "{}"]> (world ctx)
  /\ ReadAsset ctx' k = Ok zeroAsset.
Proof.
  unfold UpdateAsset in Hupdated.
  destruct (AssetExists ctx k) as [[]|] eqn:Hex; try discriminate.
  apply AssetExists_Ok in Hex as [Hget _].
  rewrite json_Marshal_braces in Hupdated. split.
  - by apply PutState_None in Hupdated as [_ ->].
  - by apply (PutState_then_ReadAsset ctx).
Qed.

Lemma UpdateAsset_then_ReadAsset_witness :
  world (snd (UpdateAsset afterCreate "www.test.com" "www.xxx.com" 7 "flag" 400))
  = <["www.test.com" := "{}"]> (world afterCreate)
  /\ ReadAsset
       (snd (UpdateAsset afterCreate "www.test.com" "www.xxx.com" 7 "flag" 400))
       "www.test.com" = Ok zeroAsset.
Proof.
  apply (UpdateAsset_then_ReadAsset afterCreate _ "www.test.com" "www.xxx.com"
           7 "flag" 400). vm_compute. reflexivity.
Defined.

(** ** Seeding, in general *)

Lemma putAll_id (todo : list Asset) (m : gmap string string) :
  (forall a, a ∈ todo -> m !! allowlist a = Some "{}") -> putAll todo m = m.
Proof.
  induction todo as [|x todo IH] using rev_ind; [done|]. intros Hall.
  rewrite putAll_snoc, IH.
  - apply insert_id, Hall, elem_of_app. right. apply list_elem_of_singleton.
    reflexivity.
  - intros a Ha. apply Hall, elem_of_app. by left.
Qed.

(** What a successful [InitLedger] has done. *)
Lemma InitLedger_Ok_inv (ctx ctx' : Stub) :
  InitLedger ctx = (None, ctx') ->
  Forall (fun a => putFault ctx (allowlist a) "{}" = None) assets
  /\ world ctx' = putAll assets (world ctx)
  /\ issued ctx'
     = map (fun a => PutCall (allowlist a) "{}") (rev assets) ++ issued ctx.
Proof.
  unfold InitLedger. intros Hseeded.
  destruct (InitLedger_range_spec assets ctx)
    as [(ctx1 & Hrun & Hall & Hworld & Hissued)
       |(ctx1 & done_ & a & rest & msg & Hrun & _)]; [|congruence].
  rewrite Hrun in Hseeded. by injection Hseeded as <-.
Qed.

(** X10.  A successful [InitLedger] has written without looking: whatever
    the world state held before, every key of the six assets now holds
    [{}], and the stub was asked for six puts. *)
Theorem InitLedger_overwrites (ctx ctx' : Stub)
    (Hseeded : InitLedger ctx = (None, ctx')) :
  (forall k : string, k ∈ seedKeys -> world ctx' !! k = Some "{}")
  /\ length (issued ctx') = (6 + length (issued ctx))%nat.
Proof.
  apply InitLedger_Ok_inv in Hseeded as (_ & Hworld & Hissued). split.
  - intros k [a [-> Ha]]%list_elem_of_fmap. rewrite Hworld.
    by apply putAll_lookup_in.
  - rewrite Hissued, length_app. reflexivity.
Qed.

Lemma InitLedger_overwrites_witness :
  (forall k : string,
     k ∈ seedKeys -> world (snd (InitLedger garbledStub)) !! k = Some "{}")
  /\ length (issued (snd (InitLedger garbledStub)))
     = (6 + length (issued garbledStub))%nat.
Proof.
  apply (InitLedger_overwrites garbledStub). vm_compute. reflexivity.
Defined.

(** X11.  [InitLedger] may be run again: after a successful run a second
    run succeeds too and leaves the world state of the first. *)
Theorem InitLedger_twice (ctx ctx1 : Stub)
    (Hseeded : InitLedger ctx = (None, ctx1)) :
  exists ctx2, InitLedger ctx1 = (None, ctx2) /\ world ctx2 = world ctx1.
Proof.
  assert (Hfaults : putFault ctx1 = putFault ctx).
  { change ctx1 with (snd (None (A:=error), ctx1)). rewrite <- Hseeded.
    apply (putFault_invoke InitLedgerTx). }
  apply InitLedger_Ok_inv in Hseeded as (Hall & Hworld & _).
  unfold InitLedger.
  destruct (InitLedger_range_spec assets ctx1)
    as [(ctx2 & Hrun2 & _ & Hworld2 & _)
       |(ctx2 & done_ & a & rest & msg & _ & Hsplit & _ & Hmsg & _)].
  - exists ctx2. split; [exact Hrun2|]. rewrite Hworld2. apply putAll_id.
    intros a Ha. rewrite Hworld. by apply putAll_lookup_in.
  - exfalso. rewrite Hfaults in Hmsg.
    rewrite Forall_forall in Hall. rewrite Hall in Hmsg; [discriminate|].
    rewrite Hsplit. apply elem_of_app. right. apply list_elem_of_here.
Qed.

Lemma InitLedger_twice_witness :
  exists ctx2, InitLedger seeded = (None, ctx2) /\ world ctx2 = world seeded.
Proof.
  apply (InitLedger_twice emptyStub seeded). vm_compute. reflexivity.
Defined.

(** X12.  A failing [InitLedger] has stopped at the first asset whose put
    the stub refused.  Its error is the stub's, wrapped in "failed to put to
    world state"; the assets before that one are written and stay written,
    and the stub was asked for one put more than was written. *)
Theorem InitLedger_stops_at_refusal (ctx ctx' : Stub) (e : error)
    (Hfailed : InitLedger ctx = (Some e, ctx')) :
  exists (done_ : list Asset) (a : Asset) (rest : list Asset) (msg : string),
    assets = done_ ++ a :: rest
    /\ e = FailedToPut (StubError msg)
    /\ putFault ctx (allowlist a) "{}" = Some msg
    /\ Forall (fun a' => putFault ctx (allowlist a') "{}" = None) done_
    /\ world ctx' = putAll done_ (world ctx)
    /\ length (issued ctx') = (S (length done_) + length (issued ctx))%nat.
Proof.
  unfold InitLedger in Hfailed.
  destruct (InitLedger_range_spec assets ctx)
    as [(ctx1 & Hrun & _)
       |(ctx1 & done_ & a & rest & msg & Hrun & Hsplit & Hall & Hmsg & Hworld
         & Hissued)]; [congruence|].
  rewrite Hrun in Hfailed. injection Hfailed as <- <-.
  exists done_, a, rest, msg. repeat split; try done.
  rewrite Hissued. cbn [length]. rewrite length_app, length_map, length_rev.
  reflexivity.
Qed.

Lemma InitLedger_stops_at_refusal_witness :
  exists (done_ : list Asset) (a : Asset) (rest : list Asset) (msg : string),
    assets = done_ ++ a :: rest
    /\ FailedToPut (StubError "key must not be an empty string")
       = FailedToPut (StubError msg)
    /\ putFault strictStub (allowlist a) "{}" = Some msg
    /\ Forall (fun a' => putFault strictStub (allowlist a') "{}" = None) done_
    /\ world (snd (InitLedger strictStub)) = putAll done_ (world strictStub)
    /\ length (issued (snd (InitLedger strictStub)))
       = (S (length done_) + length (issued strictStub))%nat.
Proof.
  apply (InitLedger_stops_at_refusal strictStub). vm_compute. reflexivity.
Defined.

(** ** [GetAllAssets] *)

(** An entry the loop gets past: [Next] hands it out and its value decodes. *)
Lemma GetAllAssets_loop_Ok (ctx : Stub) (entries : list (string * string)) :
  forall found l : list Asset,
    GetAllAssets_loop ctx entries found = Ok l ->
    l = found ++ replicate (length entries) zeroAsset
    /\ Forall (fun kv => nextFault ctx kv.1 = None
                        /\ json_Unmarshal kv.2 zeroAsset = Ok zeroAsset) entries.
Proof.
  induction entries as [|kv entries IH]; intros found l; cbn [GetAllAssets_loop].
  - intros [= <-]. by rewrite app_nil_r.
  - destruct (nextFault ctx kv.1) eqn:Hnext; [discriminate|].
    destruct (json_Unmarshal kv.2 zeroAsset) as [a|] eqn:Hdec; [|discriminate].
    pose proof (json_Unmarshal_same _ _ _ Hdec) as ->.
    intros [-> Hall]%IH. split; [|by constructor].
    cbn [length replicate]. by rewrite <- app_assoc.
Qed.

Lemma GetAllAssets_loop_total (ctx : Stub) (entries : list (string * string)) :
  forall found : list Asset,
    Forall (fun kv => nextFault ctx kv.1 = None
                      /\ json_Unmarshal kv.2 zeroAsset = Ok zeroAsset) entries ->
    GetAllAssets_loop ctx entries found
    = Ok (found ++ replicate (length entries) zeroAsset).
Proof.
  induction entries as [|kv entries IH]; intros found Hall;
    cbn [GetAllAssets_loop length replicate].
  - by rewrite app_nil_r.
  - apply Forall_cons in Hall as [[-> ->] Hall].
    rewrite IH by done. by rewrite <- app_assoc.
Qed.

(** What a successful [GetAllAssets] has met, and what it returns. *)
Lemma GetAllAssets_Ok_inv (ctx : Stub) (l : list Asset) :
  GetAllAssets ctx = Ok l ->
  rangeFault ctx = None
  /\ (forall k v : string,
        world ctx !! k = Some v ->
        nextFault ctx k = None /\ json_Unmarshal v zeroAsset = Ok zeroAsset)
  /\ l = replicate (size (world ctx)) zeroAsset.
Proof.
  unfold GetAllAssets. destruct (rangeFault ctx) eqn:Hrange.
  { unfold GetStateByRange. by rewrite Hrange. }
  rewrite GetStateByRange_all by done.
  intros [-> Hall]%GetAllAssets_loop_Ok. split; [done|]. split.
  - intros k v Hkv%elem_of_map_to_list.
    exact (proj1 (Forall_forall _ _) Hall (k, v) Hkv).
  - by rewrite length_map_to_list.
Qed.

(** A scan without fault over values that all decode succeeds. *)
Lemma GetAllAssets_Ok_intro (ctx : Stub) :
  rangeFault ctx = None ->
  (forall k v : string,
     world ctx !! k = Some v ->
     nextFault ctx k = None /\ json_Unmarshal v zeroAsset = Ok zeroAsset) ->
  GetAllAssets ctx = Ok (replicate (size (world ctx)) zeroAsset).
Proof.
  intros Hrange Hall. unfold GetAllAssets.
  rewrite GetStateByRange_all by done.
  rewrite GetAllAssets_loop_total, length_map_to_list; [done|].
  apply Forall_forall. intros [k v] Hkv%elem_of_map_to_list. by apply Hall.
Qed.

(** X13.  [GetAllAssets] succeeds exactly when the scan starts, [Next]
    hands out every key without fault and every stored value decodes; it
    then returns one zero record for each key of the world state (none for
    an empty one).  In every other case it returns an error and no
    record. *)
Theorem GetAllAssets_succeeds_iff (ctx : Stub) (l : list Asset) :
  GetAllAssets ctx = Ok l
  <-> rangeFault ctx = None
      /\ (forall k v : string,
            world ctx !! k = Some v ->
            nextFault ctx k = None /\ json_Unmarshal v zeroAsset = Ok zeroAsset)
      /\ l = replicate (size (world ctx)) zeroAsset.
Proof.
  split.
  - apply GetAllAssets_Ok_inv.
  - intros (Hrange & Hall & ->). by apply GetAllAssets_Ok_intro.
Qed.

(** One value that does not decode makes the whole scan fail, the records
    that do decode are not returned. *)
Example GetAllAssets_garbledStub :
  size (world garbledStub) = 2%nat
  /\ ReadAsset garbledStub "www.test.com" = Ok zeroAsset
  /\ GetAllAssets garbledStub = Err SyntaxError.
Proof. repeat split; vm_compute; reflexivity. Qed.

(** X14.  A successful [CreateAsset] adds exactly one record to what
    [GetAllAssets] returns, provided [Next] hands out the new key without
    fault. *)
Theorem CreateAsset_then_GetAllAssets (ctx ctx' : Stub) (k b : string)
    (a2 : Z) (a1 : string) (w : Z) (l : list Asset)
    (Hcreated : CreateAsset ctx k b a2 a1 w = (None, ctx'))
    (Hall : GetAllAssets ctx = Ok l)
    (Hnext : nextFault ctx k = None) :
  GetAllAssets ctx' = Ok (zeroAsset :: l).
Proof.
  unfold CreateAsset in Hcreated.
  destruct (AssetExists ctx k) as [[]|] eqn:Hex; try discriminate.
  apply AssetExists_Ok in Hex as [_ Habsent].
  rewrite json_Marshal_braces in Hcreated.
  apply PutState_None in Hcreated as [_ ->].
  apply GetAllAssets_Ok_inv in Hall as (Hrange & Hvalues & ->).
  rewrite GetAllAssets_Ok_intro; simpl; [|done|].
  - by rewrite map_size_insert_None.
  - intros k' v' Hkv. destruct (decide (k = k')) as [<-|Hne].
    + rewrite lookup_insert_eq in Hkv. by injection Hkv as <-.
    + rewrite lookup_insert_ne in Hkv by done. by eapply Hvalues.
Qed.

Lemma CreateAsset_then_GetAllAssets_witness :
  GetAllAssets afterCreate = Ok [zeroAsset].
Proof.
  apply (CreateAsset_then_GetAllAssets emptyStub afterCreate "www.test.com" ""
           5 "" 300 []); vm_compute; reflexivity.
Defined.

(** X15.  A successful [DeleteAsset] takes exactly one record away from
    what [GetAllAssets] returns. *)
Theorem DeleteAsset_then_GetAllAssets (ctx ctx' : Stub) (k : string)
    (l : list Asset)
    (Hdeleted : DeleteAsset ctx k = (None, ctx'))
    (Hall : GetAllAssets ctx = Ok l) :
  exists l', GetAllAssets ctx' = Ok l' /\ l = zeroAsset :: l'.
Proof.
  unfold DeleteAsset in Hdeleted.
  destruct (AssetExists ctx k) as [[]|] eqn:Hex; try discriminate.
  apply AssetExists_Ok in Hex as [_ [v0 Hpresent]].
  unfold DelState in Hdeleted. destruct (delFault ctx k); [discriminate|].
  injection Hdeleted as <-.
  apply GetAllAssets_Ok_inv in Hall as (Hrange & Hvalues & ->).
  exists (replicate (size (delete k (world ctx))) zeroAsset). split.
  - apply GetAllAssets_Ok_intro; simpl; [done|].
    intros k' v' [_ Hkv]%lookup_delete_Some. by eapply Hvalues.
  - rewrite <- (insert_delete_id (world ctx) k v0) at 1 by done.
    rewrite map_size_insert_None by apply lookup_delete_eq. reflexivity.
Qed.

Lemma DeleteAsset_then_GetAllAssets_witness :
  exists l',
    GetAllAssets (snd (DeleteAsset seeded "")) = Ok l'
    /\ replicate 5 zeroAsset = zeroAsset :: l'.
Proof.
  apply (DeleteAsset_then_GetAllAssets seeded _ ""); vm_compute; reflexivity.
Defined.

(** ** States the contract reaches *)

Lemma PutState_values (ctx : Stub) (k' k v : string) :
  world (PutState ctx k' "{}").2 !! k = Some v ->
  v = "{}" \/ world ctx !! k = Some v.
Proof.
  unfold PutState. destruct (putFault ctx k' "{}"); simpl; [by right|].
  destruct (decide (k' = k)) as [->|Hne].
  - rewrite lookup_insert_eq. left. congruence.
  - rewrite lookup_insert_ne by done. by right.
Qed.

(** A value found after a transaction is [{}] or was there before. *)
Lemma invoke_values (tx : invocation) (ctx : Stub) (k v : string) :
  world (invoke tx ctx) !! k = Some v -> v = "{}" \/ world ctx !! k = Some v.
Proof.
  destruct tx as [|k' b a2 a1 w|k' b a2 a1 w|k'|k' nv]; simpl.
  - unfold InitLedger.
    destruct (InitLedger_range_world assets ctx) as (done_ & rest & _ & ->).
    apply putAll_lookup.
  - unfold CreateAsset. destruct (AssetExists ctx k') as [[]|]; auto.
    rewrite json_Marshal_braces. apply PutState_values.
  - unfold UpdateAsset. destruct (AssetExists ctx k') as [[]|]; auto.
    rewrite json_Marshal_braces. apply PutState_values.
  - unfold DeleteAsset, DelState. destruct (AssetExists ctx k') as [[]|]; auto.
    destruct (delFault ctx k'); simpl; auto.
    intros [_ H]%lookup_delete_Some. by right.
  - unfold TransferAsset. destruct (ReadAsset ctx k'); auto.
    rewrite json_Marshal_braces.
    pose proof (PutState_values ctx k' k v) as Hput.
    by destruct (PutState ctx k' "{}") as [[err|] ctx'].
Qed.

Lemma reachable_braces (ctx : Stub) :
  reachable (fun _ => True) ctx ->
  forall k v : string, world ctx !! k = Some v -> v = "{}".
Proof.
  induction 1 as [ctx Hempty|ctx tx _ IH _]; intros k v Hv.
  - by rewrite Hempty, lookup_empty in Hv.
  - apply invoke_values in Hv as [Hv|Hv]; eauto.
Qed.

(** X16.  In every world state reached from the empty one by any sequence
    of [InitLedger], [CreateAsset], [UpdateAsset], [DeleteAsset] and
    [TransferAsset] calls, failed ones included, every stored value is the
    two bytes [{}]; so whatever key is present reads, absent a read fault,
    as the zero record. *)
Theorem reachable_values (ctx : Stub) (k v : string)
    (Hreach : reachable (fun _ => True) ctx)
    (Hv : world ctx !! k = Some v) :
  v = "{}" /\ (getFault ctx k = None -> ReadAsset ctx k = Ok zeroAsset).
Proof.
  pose proof (reachable_braces ctx Hreach k v Hv) as ->.
  split; [reflexivity|]. intros Hget. unfold ReadAsset.
  by rewrite (GetState_present _ _ "{}").
Qed.

Lemma reachable_values_witness :
  "{}" = "{}"
  /\ (getFault seeded "www.napier.ac.uk" = None ->
      ReadAsset seeded "www.napier.ac.uk" = Ok zeroAsset).
Proof.
  apply (reachable_values seeded "www.napier.ac.uk" "{}").
  - apply (reachable_invoke _ emptyStub InitLedgerTx); [|exact I].
    by apply reachable_empty.
  - vm_compute. reflexivity.
Defined.

(** X17.  On every world state the contract reaches from the empty one,
    [UpdateAsset] and [TransferAsset] change nothing that is stored: the
    world state after the call, successful or not, is the world state
    before it. *)
Theorem reachable_UpdateAsset_TransferAsset (ctx : Stub) (k b : string)
    (a2 : Z) (a1 : string) (w : Z) (nv : string)
    (Hreach : reachable (fun _ => True) ctx) :
  world (snd (UpdateAsset ctx k b a2 a1 w)) = world ctx
  /\ world (snd (TransferAsset ctx k nv)) = world ctx.
Proof.
  assert (Hput : is_Some (world ctx !! k) ->
            world (PutState ctx k "{}").2 = world ctx).
  { intros [v Hv]. pose proof (reachable_braces ctx Hreach k v Hv) as ->.
    unfold PutState. destruct (putFault ctx k "{}"); simpl; [done|].
    by apply insert_id. }
  split.
  - unfold UpdateAsset. destruct (AssetExists ctx k) as [[]|] eqn:Hex; try done.
    apply AssetExists_Ok in Hex as [_ Hsome].
    rewrite json_Marshal_braces. by apply Hput.
  - unfold TransferAsset, ReadAsset.
    destruct (GetState ctx k) as [[found|]|] eqn:Hget; try done.
    apply GetState_Ok in Hget as [_ Hfound].
    destruct (json_Unmarshal found zeroAsset); [|done].
    rewrite json_Marshal_braces.
    assert (Hsame := Hput ltac:(rewrite <- Hfound; eauto)).
    by destruct (PutState ctx k "{}") as [[err|] ctx'].
Qed.

Lemma reachable_UpdateAsset_TransferAsset_witness :
  reachable (fun _ => True) afterCreate
  /\ world (snd (UpdateAsset afterCreate "www.test.com" "www.xxx.com" 7 "flag" 400))
     = world afterCreate
  /\ world (snd (TransferAsset afterCreate "www.test.com" "flag"))
     = world afterCreate.
Proof.
  assert (H : reachable (fun _ => True) afterCreate).
  { apply (reachable_invoke _ emptyStub
             (CreateAssetTx "www.test.com" "" 5 "" 300)); [|exact I].
    by apply reachable_empty. }
  split; [exact H|].
  exact (reachable_UpdateAsset_TransferAsset afterCreate "www.test.com"
           "www.xxx.com" 7 "flag" 400 "flag" H).
Defined.

(** X18.  On every world state the contract reaches from the empty one,
    [GetAllAssets] cannot fail on a value: if the scan starts and advances
    without fault it succeeds, with one zero record for each key. *)
Theorem reachable_GetAllAssets (ctx : Stub)
    (Hreach : reachable (fun _ => True) ctx) (Hscans : scans ctx) :
  GetAllAssets ctx = Ok (replicate (size (world ctx)) zeroAsset).
Proof.
  destruct Hscans as [Hrange Hnext].
  apply GetAllAssets_Ok_intro; [done|].
  intros k v Hv. split; [apply Hnext|].
  by rewrite (reachable_braces ctx Hreach k v Hv).
Qed.

Lemma reachable_GetAllAssets_witness :
  GetAllAssets (invoke (DeleteAssetTx "www.bbc.co.uk") seeded)
  = Ok (replicate (size (world (invoke (DeleteAssetTx "www.bbc.co.uk") seeded)))
          zeroAsset).
Proof.
  apply reachable_GetAllAssets.
  - apply reachable_invoke; [|exact I].
    apply (reachable_invoke _ emptyStub InitLedgerTx); [|exact I].
    by apply reachable_empty.
  - split; [reflexivity|]. intros key.
    change (nextFault emptyStub key = None).
    reflexivity.
Defined.
